(** * snakefmt: the formatter (src/snakefmt/formatter.py)

    A shallow embedding of [Formatter] and of the Python string operations it
    relies on, followed by the properties of the emission engine, the
    parameter renderer and the literal-aware indenter.

    Python strings are sequences of Unicode code points; they are modelled as
    lists of code points ([N]).  The external code formatter ([black]) and
    the Python parser ([ast.parse]) are interfaces of the development. *)

From Stdlib Require Import Ascii String List Arith NArith ZArith Bool Lia.
Import ListNotations.


(** ** Characters and strings *)

Definition char := N.
Definition str := list char.

Definition LF : char := 10%N.
Definition CR : char := 13%N.
Definition HT : char := 9%N.
Definition SP : char := 32%N.
Definition DQ : char := 34%N.
Definition SQ : char := 39%N.
Definition HASH : char := 35%N.
Definition STAR : char := 42%N.

(** Reader for the string constants of the development, with the escapes
    [\n] (line feed), [\t] (tab), [\r] (carriage return), [\q] (the double
    quote) and [\\] (backslash). *)
Definition unescape (c : ascii) : char :=
  match c with
  | "n"%char => LF
  | "t"%char => HT
  | "r"%char => CR
  | "q"%char => DQ
  | _ => N_of_ascii c
  end.

Fixpoint py (s : string) : str :=
  match s with
  | EmptyString => []
  | String c t =>
      match c, t with
      | "\"%char, String e t' => unescape e :: py t'
      | _, _ => N_of_ascii c :: py t
      end
  end.

(** [str.isspace] on one code point (the Unicode white space of CPython). *)
Definition is_space (c : char) : bool :=
  ((9 <=? c) && (c <=? 13) || (28 <=? c) && (c <=? 32) || (c =? 133)
   || (c =? 160) || (c =? 5760) || (8192 <=? c) && (c <=? 8202)
   || (c =? 8232) || (c =? 8233) || (c =? 8239) || (c =? 8287)
   || (c =? 12288))%N.

(** The line boundaries of [str.splitlines]. *)
Definition is_linebreak (c : char) : bool :=
  ((10 <=? c) && (c <=? 13) || (28 <=? c) && (c <=? 30) || (c =? 133)
   || (c =? 8232) || (c =? 8233))%N.

Fixpoint str_eqb (a b : str) : bool :=
  match a, b with
  | [], [] => true
  | x :: a', y :: b' => (x =? y)%N && str_eqb a' b'
  | _, _ => false
  end.

Definition is_empty (s : str) : bool :=
  match s with [] => true | _ => false end.

(** [s * n]: empty when [n] is not positive. *)
Fixpoint repeat_str (s : str) (n : nat) : str :=
  match n with
  | O => []
  | S k => s ++ repeat_str s k
  end.

Definition str_mul (s : str) (n : Z) : str := repeat_str s (Z.to_nat n).

(** [sep.join(parts)] *)
Fixpoint join (sep : str) (parts : list str) : str :=
  match parts with
  | [] => []
  | [p] => p
  | p :: rest => p ++ sep ++ join sep rest
  end.

(** [s.startswith(p)] *)
Fixpoint startswith (p s : str) : bool :=
  match p, s with
  | [], _ => true
  | _ :: _, [] => false
  | a :: p', b :: s' => (a =? b)%N && startswith p' s'
  end.

(** [s.endswith(p)] *)
Definition endswith (p s : str) : bool := startswith (rev p) (rev s).

(** [p in s] *)
Fixpoint contains (p s : str) : bool :=
  startswith p s || match s with [] => false | _ :: t => contains p t end.

(** [s.count(c)] for a one-character [c]. *)
Definition count_char (c : char) (s : str) : nat :=
  length (filter (N.eqb c) s).

Fixpoint dropwhile (f : char -> bool) (s : str) : str :=
  match s with
  | [] => []
  | c :: t => if f c then dropwhile f t else s
  end.

Fixpoint takewhile (f : char -> bool) (s : str) : str :=
  match s with
  | [] => []
  | c :: t => if f c then c :: takewhile f t else []
  end.

Definition lstrip_with (f : char -> bool) (s : str) : str := dropwhile f s.
Definition rstrip_with (f : char -> bool) (s : str) : str :=
  rev (dropwhile f (rev s)).
Definition strip_with (f : char -> bool) (s : str) : str :=
  rstrip_with f (lstrip_with f s).

(** [s.rstrip()], [s.strip()]: white space is removed. *)
Definition rstrip (s : str) : str := rstrip_with is_space s.
Definition strip (s : str) : str := strip_with is_space s.

(** [s.rstrip(chars)], [s.strip(chars)]: the characters of [chars] are
    removed. *)
Definition mem_char (chars : str) (c : char) : bool := existsb (N.eqb c) chars.
Definition rstrip_chars (chars s : str) : str := rstrip_with (mem_char chars) s.
Definition strip_chars (chars s : str) : str := strip_with (mem_char chars) s.

(** [s.isspace()] *)
Definition isspace (s : str) : bool := negb (is_empty s) && forallb is_space s.

(** [s.replace(old, new)] for a non-empty [old]: the occurrences of [old]
    are replaced from left to right, without overlap.  [skip] counts the
    characters of an occurrence that are still to be passed over. *)
Fixpoint replace_from (old new : str) (skip : nat) (s : str) : str :=
  match s with
  | [] => []
  | c :: t =>
      match skip with
      | S k => replace_from old new k t
      | O =>
          if startswith old s
          then new ++ replace_from old new (length old - 1) t
          else c :: replace_from old new 0 t
      end
  end.

Definition replace (old new s : str) : str := replace_from old new 0 s.

(** [s.splitlines()] and [s.splitlines(True)] *)
Fixpoint splitlines (s : str) : list str :=
  match s with
  | [] => []
  | c :: t =>
      if is_linebreak c then
        match t with
        | d :: t' =>
            if (c =? CR)%N && (d =? LF)%N then [] :: splitlines t'
            else [] :: splitlines t
        | [] => [] :: splitlines t
        end
      else
        match splitlines t with
        | [] => [[c]]
        | l :: ls => (c :: l) :: ls
        end
  end.

Fixpoint splitlines_keepends (s : str) : list str :=
  match s with
  | [] => []
  | c :: t =>
      if is_linebreak c then
        match t with
        | d :: t' =>
            if (c =? CR)%N && (d =? LF)%N then [c; d] :: splitlines_keepends t'
            else [c] :: splitlines_keepends t
        | [] => [c] :: splitlines_keepends t
        end
      else
        match splitlines_keepends t with
        | [] => [[c]]
        | l :: ls => (c :: l) :: ls
        end
  end.

(** [s.split(LF)] *)
Fixpoint split_lf (s : str) : list str :=
  match s with
  | [] => [[]]
  | c :: t =>
      if (c =? LF)%N then [] :: split_lf t
      else
        match split_lf t with
        | [] => [[c]]
        | l :: ls => (c :: l) :: ls
        end
  end.

(** [s[a:b]] for [0 <= a], [0 <= b]. *)
Definition slice (s : str) (a b : nat) : str := firstn (b - a) (skipn a s).

(** ** The [textwrap] functions used by the formatter *)

(** [textwrap.indent(text, prefix)]: the prefix is added to the lines that
    do not consist solely of white space. *)
Definition indent_line (prefix line : str) : str :=
  if is_empty (strip line) then line else prefix ++ line.

Definition textwrap_indent (text prefix : str) : str :=
  concat (map (indent_line prefix) (splitlines_keepends text)).

(** [textwrap.dedent(text)].  Its regular expressions work line by line, on
    the lines that the line feed delimits, with the space and the tab as
    white space. *)
Definition is_blank (c : char) : bool := ((c =? SP) || (c =? HT))%N.

(** [_whitespace_only_re.sub('', text)], one line *)
Definition blank_out (line : str) : str :=
  if forallb is_blank line then [] else line.

(** [_leading_whitespace_re.findall(text)], one line *)
Definition leading_whitespace (line : str) : list str :=
  match dropwhile is_blank line with
  | [] => []
  | _ :: _ => [takewhile is_blank line]
  end.

(** The first index at which [margin] and [indent] differ. *)
Fixpoint first_diff (margin indent : str) : option nat :=
  match margin, indent with
  | x :: m, y :: i => if (x =? y)%N then option_map S (first_diff m i) else Some 0
  | _, _ => None
  end.

Definition margin_step (margin : option str) (indent : str) : option str :=
  match margin with
  | None => Some indent
  | Some m =>
      if startswith m indent then Some m
      else if startswith indent m then Some indent
      else match first_diff m indent with
           | Some i => Some (firstn i m)
           | None => Some m
           end
  end.

Definition remove_margin (margin line : str) : str :=
  if startswith margin line then skipn (length margin) line else line.

Definition textwrap_dedent (text : str) : str :=
  let lines := map blank_out (split_lf text) in
  let indents := flat_map leading_whitespace lines in
  let margin := fold_left margin_step indents None in
  match margin with
  | Some (c :: m) => join [LF] (map (remove_margin (c :: m)) lines)
  | _ => join [LF] lines
  end.

(** ** The triple-quote matcher

    [triple_quote_matcher] has two alternatives, three double quotes or
    three single quotes, then a lazy run of any characters ([re.DOTALL]),
    then the same three quotes.  A match starts at three equal quote
    characters and ends at the first later occurrence of the same three
    characters. *)

(** The index of the first occurrence of three [q] in [s]. *)
Fixpoint find_close (q : char) (s : str) : option nat :=
  match s with
  | [] => None
  | _ :: t =>
      if startswith [q; q; q] s then Some 0
      else option_map S (find_close q t)
  end.

(** The length of the match that starts at the head of [s]. *)
Definition match_here (s : str) : option nat :=
  match s with
  | a :: b :: c :: t =>
      if ((a =? DQ) || (a =? SQ))%N && (a =? b)%N && (a =? c)%N
      then option_map (fun j => 3 + j + 3) (find_close a t)
      else None
  | _ => None
  end.

(** [re.finditer(triple_quote_matcher, string)] as the list of the
    [(match.start(), match.end())]: the matches are sought from left to
    right and do not overlap.  [skip] counts the characters of the last match
    that are still to be passed over, [pos] is the index of the head of
    [s]. *)
Fixpoint finditer_from (skip pos : nat) (s : str) : list (nat * nat) :=
  match s with
  | [] => []
  | _ :: t =>
      match skip with
      | S k => finditer_from k (S pos) t
      | O =>
          match match_here s with
          | Some n => (pos, pos + n) :: finditer_from (n - 1) (S pos) t
          | None => finditer_from 0 (S pos) t
          end
      end
  end.

Definition finditer (s : str) : list (nat * nat) := finditer_from 0 0 s.

(** ** The literal-aware indenter *)

(** Modelled from the spec: the indentation unit [TAB] of
    [snakefmt.parser.syntax], four spaces. *)
Definition TAB : str := [SP; SP; SP; SP].

Definition TRIPLE_DQ : str := [DQ; DQ; DQ].

(** One turn of the loop of [string_format]: the state is [(pos, indented)]. *)
Definition string_format_step (string : str) (target_indent : Z)
    (acc : nat * str) (m : nat * nat) : nat * str :=
  let used_indent := str_mul TAB target_indent in
  let '(pos, indented) := acc in
  let '(m_start, m_end) := m in
  let indented := indented ++ textwrap_indent (slice string pos m_start) used_indent in
  let match_slice := replace [HT] TAB (slice string m_start m_end) in
  let indented :=
    if (0 <? count_char LF match_slice) && (0 <? target_indent)%Z then
      let dedented := replace TRIPLE_DQ [] match_slice in
      let dedented := TRIPLE_DQ ++ textwrap_dedent dedented ++ TRIPLE_DQ in
      indented ++ textwrap_indent dedented used_indent
    else
      indented ++ used_indent ++ match_slice in
  (m_end, indented).

Definition string_format (string : str) (target_indent : Z) : str :=
  let used_indent := str_mul TAB target_indent in
  let '(pos, indented) :=
    fold_left (string_format_step string target_indent) (finditer string) (0, []) in
  indented ++ textwrap_indent (skipn pos string) used_indent.

(** ** The external collaborators and the errors *)

Inductive black_result : Type :=
| Formatted (s : str)
| InvalidInput (msg : str).

(** [black.format_str(string, mode=self.black_mode)] and the success of
    [ast.parse(source)]. *)
Class Engines : Type := {
  black_format_str : str -> black_result;
  ast_parse : str -> bool
}.

Inductive exn : Type :=
| InvalidPython (msg : str)
| InvalidParameterSyntax (msg : str)
| AttributeError.

Inductive outcome (A : Type) : Type :=
| Return (a : A)
| Raise (e : exn).

Arguments Return {A} a.
Arguments Raise {A} e.

Definition bind {A B : Type} (m : outcome A) (k : A -> outcome B) : outcome B :=
  match m with
  | Return a => k a
  | Raise e => Raise e
  end.

Notation "x <- m ;; k" := (bind m (fun x => k))
  (at level 61, m at next level, right associativity).

(** ** The data of the parser that the formatter reads *)

(** Modelled from the spec: the class [Parameter] of
    [snakefmt.parser.syntax], as the formatter reads it: [str(parameter)],
    its comments, its line number and whether it has a key. *)
Record Param : Type := {
  param_str : str;
  comments : list str;
  line_nb : str;
  has_a_key : bool
}.

(** Modelled from the spec: the three kinds of parameter group,
    [ParamList] (a list of parameters), [SingleParam] (exactly one
    parameter) and its subclass [RuleInlineSingleParam] (exactly one
    parameter, inline). *)
Inductive param_class : Type := ParamList | SingleParam | RuleInlineSingleParam.

(** [issubclass(p_class, SingleParam)] *)
Definition issubclass_SingleParam (c : param_class) : bool :=
  match c with
  | ParamList => false
  | SingleParam | RuleInlineSingleParam => true
  end.

Definition is_RuleInlineSingleParam (c : param_class) : bool :=
  match c with
  | RuleInlineSingleParam => true
  | _ => false
  end.

(** Modelled from the spec: the vocabulary of the section a group sits in,
    [SnakeRule] for the rule-like sections. *)
Inductive vocab_class : Type := SnakeGlobal | SnakeRule.

Definition issubclass_SnakeRule (v : vocab_class) : bool :=
  match v with
  | SnakeRule => true
  | SnakeGlobal => false
  end.

Record ParameterSyntax : Type := {
  p_class : param_class;
  keyword_name : str;
  comment : str;
  p_target_indent : Z;
  all_params : list Param;
  incident_vocab : vocab_class
}.

(** ** The formatter *)

Record Formatter : Type := {
  result : str;
  lagging_comments : str;
  first : bool;
  buffer : str;
  target_indent : Z
}.

(** [__init__] *)
Definition init : Formatter :=
  {| result := []; lagging_comments := []; first := true;
     buffer := []; target_indent := 0 |}.

Definition add_result (s : str) (self : Formatter) : Formatter :=
  {| result := result self ++ s; lagging_comments := lagging_comments self;
     first := first self; buffer := buffer self;
     target_indent := target_indent self |}.

Definition set_lagging_comments (s : str) (self : Formatter) : Formatter :=
  {| result := result self; lagging_comments := s;
     first := first self; buffer := buffer self;
     target_indent := target_indent self |}.

Definition set_first (b : bool) (self : Formatter) : Formatter :=
  {| result := result self; lagging_comments := lagging_comments self;
     first := b; buffer := buffer self;
     target_indent := target_indent self |}.

Definition set_buffer (s : str) (self : Formatter) : Formatter :=
  {| result := result self; lagging_comments := lagging_comments self;
     first := first self; buffer := s;
     target_indent := target_indent self |}.

Definition set_target_indent (n : Z) (self : Formatter) : Formatter :=
  {| result := result self; lagging_comments := lagging_comments self;
     first := first self; buffer := buffer self;
     target_indent := n |}.

Definition get_formatted (self : Formatter) : str := result self.

(** The test of the loop of [add_newlines]: the line is not empty and
    starts with the comment marker. *)
Definition is_comment_line (line : str) : bool :=
  match line with
  | [] => false
  | c :: _ => (c =? HASH)%N
  end.

(** The loop over [reversed(all_lines)]: [comment_matches]. *)
Fixpoint count_comment_lines (reversed_lines : list str) : nat :=
  match reversed_lines with
  | [] => 0
  | line :: rest =>
      if is_comment_line line then S (count_comment_lines rest) else 0
  end.

Definition add_newlines (cur_indent : Z) (formatted_string : str)
    (final_flush : bool) (self : Formatter) : Formatter :=
  let comment_break := 1 in
  let '(self, comment_break) :=
    if (cur_indent =? 0)%Z then
      let self :=
        if negb (first self) then add_result [LF; LF] self else self in
      let self :=
        if negb (is_empty (lagging_comments self))
        then set_lagging_comments [] (add_result (lagging_comments self) self)
        else self in
      let all_lines := splitlines formatted_string in
      if 0 <? length all_lines then
        let comment_matches := count_comment_lines (rev all_lines) in
        let comment_break := length all_lines - comment_matches in
        let self :=
          if 0 <? comment_break
          then add_result (rstrip (join [LF] (firstn comment_break all_lines)) ++ [LF]) self
          else self in
        let self :=
          if 0 <? comment_matches then
            let self :=
              set_lagging_comments
                (join [LF] (skipn comment_break all_lines) ++ [LF]) self in
            if final_flush then add_result (lagging_comments self) self else self
          else self in
        (self, comment_break)
      else (self, comment_break)
    else (add_result formatted_string self, comment_break) in
  if first self then
    if negb (comment_break =? 0) then set_first false self else self
  else self.

Section Formatter.

Context {E : Engines}.

Definition run_black_format_str (string : str) : outcome str :=
  match black_format_str string with
  | Formatted fmted => Return fmted
  | InvalidInput e =>
      Raise (InvalidPython
               (py "Got error:\n```\n" ++ e ++ py "\n```\nwhile formatting code with black."))
  end.

Definition flush_buffer (from_python final_flush : bool) (self : Formatter)
  : outcome Formatter :=
  if (length (buffer self) =? 0) || isspace (buffer self) then
    Return (set_buffer [] (add_result (buffer self) self))
  else if negb from_python then
    let trailing_newline := endswith [LF; LF] (buffer self) in
    formatted <- run_black_format_str (buffer self) ;;
    let formatted :=
      if (0 <? target_indent self)%Z
      then textwrap_indent formatted (str_mul TAB (target_indent self))
      else formatted in
    let formatted := if trailing_newline then formatted ++ [LF] else formatted in
    Return (set_buffer [] (add_newlines (target_indent self) formatted final_flush self))
  else
    let formatted := rstrip_chars TAB (buffer self) in
    Return (set_buffer [] (add_result formatted self)).

(** [process_keyword_context]: [cur_indent], [keyword_name] and [comment]
    are read from [self.context]. *)
Definition process_keyword_context (cur_indent : Z) (keyword_name comment : str)
    (self : Formatter) : Formatter :=
  let self := add_newlines cur_indent [] false self in
  let formatted := str_mul TAB cur_indent ++ keyword_name ++ py ":" ++ comment ++ [LF] in
  add_result formatted self.

(** [re.match] of [val] with the pattern of [format_param] (a lazy group,
    an equals sign between two spaces, a greedy group; [re.DOTALL]): the
    groups are the text before the first such equals sign and the text after
    it. *)
Fixpoint match_equal (val : str) : option (str * str) :=
  match val with
  | [] => None
  | c :: t =>
      if startswith (py " = ") val then Some ([], skipn 3 val)
      else match match_equal t with
           | Some (g1, g2) => Some (c :: g1, g2)
           | None => None
           end
  end.

Definition format_param (parameter : Param) (target_indent : Z)
    (inline_formatting single_param : bool) : outcome str :=
  let target_indent := if inline_formatting then 0%Z else target_indent in
  let comments := join ([LF] ++ str_mul TAB target_indent) (comments parameter) in
  let val := param_str parameter in
  if negb (ast_parse (py "param(" ++ val ++ py ")")) then
    Raise (InvalidParameterSyntax (line_nb parameter ++ val))
  else
    let val := if inline_formatting then replace [LF] [] val else val in
    val <-
      match run_black_format_str val with
      | Return fmted =>
          let val := string_format fmted target_indent in
          if has_a_key parameter then
            match match_equal val with
            | Some (g1, g2) => Return (g1 ++ py "=" ++ g2)
            | None => Raise AttributeError
            end
          else Return val
      | Raise (InvalidPython _) =>
          Return (if contains (py "**") val
                  then replace (py "** ") (py "**") val else val)
      | Raise e => Raise e
      end ;;
    let val := strip_chars [LF] val in
    Return (if single_param
            then val ++ comments ++ [LF]
            else val ++ py "," ++ comments ++ [LF]).

(** The loop of [format_params] over [parameters.all_params]. *)
Fixpoint format_params_loop (elems : list Param) (target_indent : Z)
    (inline_fmting single_param : bool) (result : str) : outcome str :=
  match elems with
  | [] => Return result
  | elem :: rest =>
      r <- format_param elem target_indent inline_fmting single_param ;;
      format_params_loop rest target_indent inline_fmting single_param (result ++ r)
  end.

Definition format_params (parameters : ParameterSyntax) (in_rule : bool)
  : outcome str :=
  let target_indent := p_target_indent parameters in
  let used_indent := str_mul TAB (target_indent - 1) in
  let result :=
    used_indent ++ keyword_name parameters ++ py ":" ++ comment parameters in
  let p_class := p_class parameters in
  let single_param := issubclass_SingleParam p_class in
  let inline_fmting := single_param in
  let inline_fmting :=
    if in_rule && negb (is_RuleInlineSingleParam p_class) then false
    else inline_fmting in
  let result := if inline_fmting then result ++ [SP] else result ++ [LF] in
  format_params_loop (all_params parameters) target_indent inline_fmting
    single_param result.

Definition process_keyword_param (param_context : ParameterSyntax)
    (self : Formatter) : outcome Formatter :=
  let self := add_newlines (p_target_indent param_context - 1) [] false self in
  let in_rule := issubclass_SnakeRule (incident_vocab param_context) in
  r <- format_params param_context in_rule ;;
  Return (add_result r self).

End Formatter.

(** ** The event stream of the parser *)

(** Modelled from the spec: the events that the parser of
    [snakefmt.parser.parser] sends to the formatter (section 6 of the
    specification): a span of plain text with its target indent and the two
    flags of [flush_buffer], a keyword header, a parameter group. *)
Inductive event : Type :=
| PlainText (text : str) (indent : Z) (from_python final_flush : bool)
| KeywordContext (cur_indent : Z) (name comment : str)
| KeywordParam (param_context : ParameterSyntax).

Section Events.

Context {E : Engines}.

Definition step (ev : event) (self : Formatter) : outcome Formatter :=
  match ev with
  | PlainText text indent from_python final_flush =>
      flush_buffer from_python final_flush
        (set_target_indent indent (set_buffer text self))
  | KeywordContext cur_indent name comment =>
      Return (process_keyword_context cur_indent name comment self)
  | KeywordParam param_context => process_keyword_param param_context self
  end.

Fixpoint run (evs : list event) (self : Formatter) : outcome Formatter :=
  match evs with
  | [] => Return self
  | ev :: rest => self' <- step ev self ;; run rest self'
  end.

End Events.

(** ** Recorded behaviour of the external engines

    What [black.format_str] and [ast.parse] answer on the inputs of the
    examples of this development; every other input is reported as
    invalid. *)

Fixpoint lookup {A : Type} (k : str) (table : list (str * A)) : option A :=
  match table with
  | [] => None
  | (k', v) :: rest => if str_eqb k k' then Some v else lookup k rest
  end.

Definition recorded_black : list (str * str) :=
  [ (py "\qx.txt\q", py "\qx.txt\q\n");
    (py "x = 1\n# c\n", py "x = 1\n# c\n");
    (py "threads", py "threads\n") ].

Definition recorded_ast : list (str * bool) :=
  [ (py "param(\qx.txt\q)", true);
    (py "param(threads)", true);
    (py "param(**x)", true);
    (py "param(** config)", true);
    (py "param(x for x in\ny)", true);
    (py "param(def()", false) ].

Definition recorded : Engines := {|
  black_format_str s :=
    match lookup s recorded_black with
    | Some f => Formatted f
    | None => InvalidInput (py "Cannot parse")
    end;
  ast_parse s :=
    match lookup s recorded_ast with
    | Some b => b
    | None => false
    end
|}.

(** ** Notions used in the statements *)

(** The lines of a block before its trailing run of comment lines, and
    that run. *)
Definition comment_break_of (all_lines : list str) : nat :=
  length all_lines - count_comment_lines (rev all_lines).

Definition leading_lines (all_lines : list str) : list str :=
  firstn (comment_break_of all_lines) all_lines.

Definition trailing_comments (all_lines : list str) : list str :=
  skipn (comment_break_of all_lines) all_lines.

(** The text that a top-level commit writes for the lines before the
    trailing comments, and the text it holds back for the trailing
    comments. *)
Definition committed_text (all_lines : list str) : str :=
  match leading_lines all_lines with
  | [] => []
  | ls => rstrip (join [LF] ls) ++ [LF]
  end.

Definition held_text (all_lines : list str) : str :=
  match trailing_comments all_lines with
  | [] => []
  | ls => join [LF] ls ++ [LF]
  end.


(** The text that [string_format] writes for one match, [m] being the
    matched slice of the string. *)
Definition format_match (target_indent : Z) (m : str) : str :=
  let used_indent := str_mul TAB target_indent in
  let match_slice := replace [HT] TAB m in
  if (0 <? count_char LF match_slice) && (0 <? target_indent)%Z then
    textwrap_indent
      (TRIPLE_DQ ++ textwrap_dedent (replace TRIPLE_DQ [] match_slice) ++ TRIPLE_DQ)
      used_indent
  else used_indent ++ match_slice.

(** The text that [string_format] writes from the position [pos] on, for
    the matches [ms] that are left. *)
Fixpoint render (string : str) (target_indent : Z) (ms : list (nat * nat))
    (pos : nat) : str :=
  match ms with
  | [] => textwrap_indent (skipn pos string) (str_mul TAB target_indent)
  | (m_start, m_end) :: rest =>
      textwrap_indent (slice string pos m_start) (str_mul TAB target_indent)
      ++ format_match target_indent (slice string m_start m_end)
      ++ render string target_indent rest m_end
  end.

(** The text of a string outside its matches. *)
Fixpoint outside (string : str) (ms : list (nat * nat)) (pos : nat) : str :=
  match ms with
  | [] => skipn pos string
  | (m_start, m_end) :: rest =>
      slice string pos m_start ++ outside string rest m_end
  end.

Definition outside_matches (string : str) : str :=
  outside string (finditer string) 0.

(** The replacement of every tab by [TAB]. *)
Definition expand_tabs (s : str) : str :=
  flat_map (fun c => if (c =? HT)%N then TAB else [c]) s.

(** [a] is an initial part of [b]. *)
Definition is_prefix (a b : str) : Prop := exists s, b = a ++ s.

(** A text made of comment lines only, each ended by a line feed (or no
    text at all). *)
Definition comment_block (s : str) : Prop :=
  s = []
  \/ exists ls, ls <> []
       /\ Forall (fun l => is_comment_line l = true) ls
       /\ s = join [LF] ls ++ [LF].

(** The buffer is empty or white space only: the test of [flush_buffer]. *)
Definition blank_buffer (self : Formatter) : bool :=
  (length (buffer self) =? 0) || isspace (buffer self).

Definition TRIPLE_SQ : str := [SQ; SQ; SQ].

(** The matches follow one another from the position [pos] on: each match
    starts at or after the end of the one before and ends after its start. *)
Fixpoint in_order (pos : nat) (ms : list (nat * nat)) : Prop :=
  match ms with
  | [] => True
  | (m_start, m_end) :: rest =>
      pos <= m_start /\ m_start <= m_end /\ in_order m_end rest
  end.

(** The string with the tabs of its matches replaced by [TAB]. *)
Fixpoint expand_matches (string : str) (ms : list (nat * nat)) (pos : nat) : str :=
  match ms with
  | [] => skipn pos string
  | (m_start, m_end) :: rest =>
      slice string pos m_start ++ expand_tabs (slice string m_start m_end)
      ++ expand_matches string rest m_end
  end.

(** What [textwrap.dedent] does to a line, for the margin it removes: a
    line of spaces and tabs only becomes empty, any other line loses the
    margin at its start. *)
Definition dedented_line (margin l l' : str) : Prop :=
  if forallb is_blank l then l' = [] else l = margin ++ l'.

(** What [textwrap.indent] does to a line: it is kept as it is, or kept
    with the prefix before it. *)
Definition kept_line (prefix l l' : str) : Prop := l' = l \/ l' = prefix ++ l.

(** The character is not a quote. *)
Definition not_quote (c : char) : Prop := c <> DQ /\ c <> SQ.

(** ** The inputs of the examples *)

Definition def_paren : Param :=
  {| param_str := py "def("; comments := []; line_nb := py "L3: ";
     has_a_key := false |}.

Definition splat_config : Param :=
  {| param_str := py "** config"; comments := []; line_nb := py "L7: ";
     has_a_key := false |}.

Definition generator_two_lines : Param :=
  {| param_str := py "x for x in\ny"; comments := []; line_nb := py "L2: ";
     has_a_key := false |}.

Definition threads_group (c : param_class) (v : vocab_class) (value : str)
  : ParameterSyntax :=
  {| p_class := c; keyword_name := py "threads"; comment := [];
     p_target_indent := 2;
     all_params :=
       [ {| param_str := value; comments := []; line_nb := py "L4: ";
            has_a_key := false |} ];
     incident_vocab := v |}.

Definition input_group (c : param_class) (indent : Z) : ParameterSyntax :=
  {| p_class := c; keyword_name := py "input"; comment := [];
     p_target_indent := indent;
     all_params :=
       [ {| param_str := py "\qx.txt\q"; comments := []; line_nb := py "L2: ";
            has_a_key := false |} ];
     incident_vocab := SnakeRule |}.

(** A second record of answers of the engines, with a keyed value. *)
Definition recorded_keyed : Engines := {|
  black_format_str s :=
    if str_eqb s (py "mem=4") then Formatted (py "mem = 4\n")
    else if str_eqb s (py "\qx.txt\q") then Formatted (py "\qx.txt\q\n")
    else InvalidInput (py "Cannot parse");
  ast_parse s :=
    str_eqb s (py "param(mem=4)") || str_eqb s (py "param(\qx.txt\q)")
|}.

Definition keyed_param : Param :=
  {| param_str := py "mem=4"; comments := [py "  # GB"]; line_nb := py "L9: ";
     has_a_key := true |}.

Definition x_txt_param : Param :=
  {| param_str := py "\qx.txt\q"; comments := []; line_nb := py "L2: ";
     has_a_key := false |}.

Definition input_list_group (elems : list Param) : ParameterSyntax :=
  {| p_class := ParamList; keyword_name := py "input"; comment := py "  # in";
     p_target_indent := 2; all_params := elems; incident_vocab := SnakeRule |}.

(** The layout that [format_params] chooses, and the header it writes. *)
Definition inline_layout (parameters : ParameterSyntax) (in_rule : bool) : bool :=
  issubclass_SingleParam (p_class parameters)
  && negb (in_rule && negb (is_RuleInlineSingleParam (p_class parameters))).

Definition params_header (parameters : ParameterSyntax) (in_rule : bool) : str :=
  str_mul TAB (p_target_indent parameters - 1) ++ keyword_name parameters
  ++ py ":" ++ comment parameters
  ++ (if inline_layout parameters in_rule then [SP] else [LF]).

Definition code_block_state (text : str) (indent : Z) : Formatter :=
  set_target_indent indent (set_buffer text (add_newlines 0 [] false init)).

Definition held_comment_state : Formatter :=
  set_buffer (py "x = 1\n# c\n") (add_newlines 0 (py "x = 1\n# c\n") false init).
(** * Properties *)

(** ** The string operations on examples *)

Example py_reads : py "a\tb\n\q" = [97; 9; 98; 10; 34]%N.
Proof. reflexivity. Qed.

Example splitlines_ex :
  splitlines (py "a\n\nb\r\nc\n") = [py "a"; []; py "b"; py "c"].
Proof. reflexivity. Qed.

Example splitlines_keepends_ex :
  splitlines_keepends (py "a\n\nb\r\nc") = [py "a\n"; py "\n"; py "b\r\n"; py "c"].
Proof. reflexivity. Qed.

Example replace_ex : replace (py "** ") (py "**") (py "f(**  a, ** b)") = py "f(** a, **b)".
Proof. reflexivity. Qed.

Example dedent_ex :
  textwrap_dedent (py "\n    foo\n      bar\n\n    ") = py "\nfoo\n  bar\n\n".
Proof. reflexivity. Qed.

Example indent_ex :
  textwrap_indent (py "a\n\n  \nb") (py "    ") = py "    a\n\n  \n    b".
Proof. reflexivity. Qed.

Example finditer_ex :
  finditer (py "a = \q\q\qx\q\q\q + '''y\n''' + \q\q\q") = [(4, 11); (14, 22)].
Proof. reflexivity. Qed.

Example string_format_ex1 :
  string_format (py "x = \q\q\q\n  a\n    b\n  \q\q\q\ny\n") 1
  = py "    x =     \q\q\q\n    a\n      b\n    \q\q\q\n    y\n".
Proof. vm_compute. reflexivity. Qed.


(** ** Strings *)

Lemma startswith_app (p r : str) : startswith p (p ++ r) = true.
Proof.
  induction p as [|a p IH]; simpl; [reflexivity|].
  now rewrite N.eqb_refl, IH.
Qed.

Lemma startswith_split (p s : str) :
  startswith p s = true -> s = p ++ skipn (length p) s.
Proof.
  revert s; induction p as [|a p IH]; intros [|b s] H; simpl in *;
    try reflexivity; try discriminate.
  apply andb_true_iff in H as [Hab H].
  apply N.eqb_eq in Hab; subst b.
  f_equal; now apply IH.
Qed.

Lemma dropwhile_head (f : char -> bool) (s : str) :
  match dropwhile f s with
  | [] => True
  | c :: _ => f c = false
  end.
Proof.
  induction s as [|c s IH]; simpl; [exact I|].
  destruct (f c) eqn:Hc; [exact IH|exact Hc].
Qed.


(** ** The trailing comments of a block *)

Lemma count_comment_lines_le (r : list str) : count_comment_lines r <= length r.
Proof.
  induction r as [|l r IH]; simpl; [lia|].
  destruct (is_comment_line l); lia.
Qed.

Lemma count_comment_lines_split (r : list str) :
  Forall (fun l => is_comment_line l = true) (firstn (count_comment_lines r) r)
  /\ match skipn (count_comment_lines r) r with
     | [] => True
     | l :: _ => is_comment_line l = false
     end.
Proof.
  induction r as [|l r [IH1 IH2]]; simpl; [split; [constructor|exact I]|].
  destruct (is_comment_line l) eqn:Hl; simpl.
  - split; [constructor; assumption|exact IH2].
  - split; [constructor|exact Hl].
Qed.

Lemma comment_break_of_le (ls : list str) : comment_break_of ls <= length ls.
Proof. unfold comment_break_of; lia. Qed.

Lemma leading_trailing (ls : list str) :
  leading_lines ls ++ trailing_comments ls = ls.
Proof. apply firstn_skipn. Qed.

Lemma rev_firstn_skipn {A : Type} (l : list A) (k : nat) :
  k <= length l ->
  skipn (length l - k) l = rev (firstn k (rev l))
  /\ firstn (length l - k) l = rev (skipn k (rev l)).
Proof.
  intros Hk.
  assert (Hl : l = rev (skipn k (rev l)) ++ rev (firstn k (rev l))).
  { rewrite <- rev_app_distr, firstn_skipn, rev_involutive; reflexivity. }
  assert (Hlen : length (rev (skipn k (rev l))) = length l - k).
  { rewrite length_rev, length_skipn, length_rev; reflexivity. }
  split.
  - rewrite Hl at 2. rewrite <- Hlen.
    rewrite skipn_app, skipn_all, Nat.sub_diag; reflexivity.
  - rewrite Hl at 2. rewrite <- Hlen.
    rewrite firstn_app, firstn_all, Nat.sub_diag; simpl.
    now rewrite app_nil_r.
Qed.

(** The trailing comments are the maximal suffix of comment lines. *)
Lemma trailing_comments_maximal (ls : list str) :
  Forall (fun l => is_comment_line l = true) (trailing_comments ls)
  /\ match rev (leading_lines ls) with
     | [] => True
     | l :: _ => is_comment_line l = false
     end.
Proof.
  unfold trailing_comments, leading_lines, comment_break_of.
  pose proof (count_comment_lines_le (rev ls)) as Hle.
  rewrite length_rev in Hle.
  destruct (rev_firstn_skipn ls _ Hle) as [Hs Hf].
  rewrite Hs, Hf, rev_involutive.
  destruct (count_comment_lines_split (rev ls)) as [H1 H2].
  split; [|exact H2].
  apply Forall_rev; exact H1.
Qed.

Lemma length_trailing_comments (ls : list str) :
  length (trailing_comments ls) = count_comment_lines (rev ls).
Proof.
  unfold trailing_comments, comment_break_of.
  rewrite length_skipn.
  pose proof (count_comment_lines_le (rev ls)) as H.
  rewrite length_rev in H; lia.
Qed.

Lemma length_leading_lines (ls : list str) :
  length (leading_lines ls) = comment_break_of ls.
Proof.
  unfold leading_lines.
  rewrite length_firstn.
  pose proof (comment_break_of_le ls); lia.
Qed.

Lemma count_comment_lines_all (r : list str) :
  count_comment_lines r = length r <-> forallb is_comment_line r = true.
Proof.
  induction r as [|l r IH]; simpl; [tauto|].
  pose proof (count_comment_lines_le r) as Hle.
  destruct (is_comment_line l); simpl.
  - rewrite <- IH; split; intros; lia.
  - split; [lia|discriminate].
Qed.

Lemma forallb_rev {A : Type} (f : A -> bool) (l : list A) :
  forallb f (rev l) = forallb f l.
Proof.
  induction l as [|a l IH]; simpl; [reflexivity|].
  rewrite forallb_app, IH; simpl.
  rewrite andb_true_r; apply andb_comm.
Qed.

Lemma comment_break_of_zero (ls : list str) :
  (comment_break_of ls =? 0) = forallb is_comment_line ls.
Proof.
  unfold comment_break_of.
  pose proof (count_comment_lines_le (rev ls)) as Hle.
  pose proof (count_comment_lines_all (rev ls)) as Hall.
  rewrite length_rev in Hle, Hall.
  rewrite forallb_rev in Hall.
  destruct (forallb is_comment_line ls).
  - apply Nat.eqb_eq. destruct Hall as [_ H]; rewrite H by reflexivity; lia.
  - apply Nat.eqb_neq. intros H0.
    assert (count_comment_lines (rev ls) = length ls) as H1 by lia.
    apply Hall in H1; discriminate.
Qed.

(** ** The commit of a block: [add_newlines] *)

Lemma leading_lines_nil_iff (ls : list str) :
  ls <> [] -> (leading_lines ls = [] <-> comment_break_of ls = 0).
Proof.
  intros Hne. rewrite <- length_leading_lines.
  destruct (leading_lines ls); simpl; split; intros; try reflexivity; try discriminate.
Qed.

Lemma committed_text_eq (ls : list str) :
  committed_text ls =
  if 0 <? comment_break_of ls
  then rstrip (join [LF] (firstn (comment_break_of ls) ls)) ++ [LF]
  else [].
Proof.
  unfold committed_text.
  pose proof (length_leading_lines ls) as Hlen.
  fold (leading_lines ls).
  destruct (leading_lines ls) eqn:Hl; simpl in Hlen; rewrite <- Hlen; reflexivity.
Qed.

Lemma held_text_eq (ls : list str) :
  held_text ls =
  if 0 <? count_comment_lines (rev ls)
  then join [LF] (skipn (comment_break_of ls) ls) ++ [LF]
  else [].
Proof.
  unfold held_text.
  pose proof (length_trailing_comments ls) as Hlen.
  fold (trailing_comments ls).
  destruct (trailing_comments ls) eqn:Hl; simpl in Hlen; rewrite <- Hlen; reflexivity.
Qed.

Lemma add_newlines_top_level (f : str) (final_flush : bool) (self : Formatter) :
  add_newlines 0 f final_flush self =
  {| result :=
       result self ++ (if first self then [] else [LF; LF])
       ++ lagging_comments self ++ committed_text (splitlines f)
       ++ (if final_flush then held_text (splitlines f) else []);
     lagging_comments := held_text (splitlines f);
     first :=
       first self
       && ((0 <? length (splitlines f)) && (comment_break_of (splitlines f) =? 0));
     buffer := buffer self;
     target_indent := target_indent self |}.
Proof.
  rewrite committed_text_eq, held_text_eq.
  unfold add_newlines; simpl.
  destruct self as [r lag fst buf ti]; simpl.
  fold (comment_break_of (splitlines f)).
  set (ls := splitlines f).
  destruct ls as [|l ls'] eqn:Hls.
  - destruct fst, lag, final_flush; simpl; unfold add_result, set_lagging_comments, set_first; simpl;
      rewrite ?app_nil_r, <- ?app_assoc; reflexivity.
  - set (k := comment_break_of (l :: ls')).
    set (c := count_comment_lines (rev (l :: ls'))).
    clearbody k c.
    generalize (rstrip (join [LF] (firstn k (l :: ls')))) as X.
    generalize (join [LF] (skipn k (l :: ls'))) as Y.
    intros Y X.
    destruct fst, lag, final_flush, c, k; simpl;
      unfold add_result, set_lagging_comments, set_first; simpl;
      rewrite ?app_nil_r; repeat rewrite <- app_assoc; simpl; reflexivity.
Qed.

Lemma add_newlines_nested (cur_indent : Z) (f : str) (final_flush : bool)
    (self : Formatter) :
  cur_indent <> 0%Z ->
  add_newlines cur_indent f final_flush self =
  {| result := result self ++ f;
     lagging_comments := lagging_comments self;
     first := false;
     buffer := buffer self;
     target_indent := target_indent self |}.
Proof.
  intros Hne. unfold add_newlines.
  apply Z.eqb_neq in Hne; rewrite Hne.
  destruct self as [r lag fst buf ti]; destruct fst; reflexivity.
Qed.


Lemma first_add_newlines (cur_indent : Z) (f : str) (final_flush : bool)
    (self : Formatter) :
  first (add_newlines cur_indent f final_flush self) =
  first self
  && ((cur_indent =? 0)%Z && (0 <? length (splitlines f))
      && forallb is_comment_line (splitlines f)).
Proof.
  destruct (Z.eqb_spec cur_indent 0) as [->|Hne].
  - rewrite add_newlines_top_level; simpl.
    rewrite comment_break_of_zero. reflexivity.
  - rewrite add_newlines_nested by assumption; simpl.
    destruct (first self); reflexivity.
Qed.

Ltac flag_cases b :=
  destruct b; simpl; rewrite ?andb_false_r, ?andb_true_r; reflexivity.

Section Permanence.

Context {E : Engines}.

Lemma first_flush_buffer (from_python final_flush : bool) (self self' : Formatter) :
  flush_buffer from_python final_flush self = Return self' ->
  first self' && negb (first self) = false.
Proof.
  unfold flush_buffer.
  destruct ((length (buffer self) =? 0) || isspace (buffer self)).
  - intros [= <-]; simpl. flag_cases (first self).
  - destruct from_python; simpl.
    + intros [= <-]; simpl. flag_cases (first self).
    + destruct (run_black_format_str (buffer self)); simpl; [|discriminate].
      intros [= <-]; simpl.
      rewrite first_add_newlines. flag_cases (first self).
Qed.

Lemma first_step (ev : event) (self self' : Formatter) :
  step ev self = Return self' -> first self' && negb (first self) = false.
Proof.
  destruct ev; simpl.
  - intros H. apply first_flush_buffer in H. exact H.
  - intros [= <-]. unfold process_keyword_context; simpl.
    rewrite first_add_newlines. flag_cases (first self).
  - unfold process_keyword_param.
    destruct (format_params param_context _); simpl; [|discriminate].
    intros [= <-]; simpl.
    rewrite first_add_newlines. flag_cases (first self).
Qed.

Lemma first_run (evs : list event) (self : Formatter) :
  match run evs self with
  | Return self' => first self' && negb (first self) = false
  | Raise _ => True
  end.
Proof.
  revert self; induction evs as [|ev evs IH]; intros self; simpl.
  - flag_cases (first self).
  - destruct (step ev self) as [s1|] eqn:Hs; simpl; [|exact I].
    specialize (IH s1). apply first_step in Hs.
    destruct (run evs s1) as [s2|]; [|exact I].
    destruct (first s2), (first s1), (first self); simpl in *; congruence.
Qed.

End Permanence.

(** C6, as the code has it.  [first] starts true; a commit leaves it true
    only when it is true before and the commit is a top-level commit of a
    non-empty block whose lines are all comment lines: every other commit,
    those at a non-zero indent and those of an empty text included, makes it
    false; and it never goes back to true in a run of the formatter. *)
Theorem C6_first_block_flag :
  first init = true
  /\ (forall cur_indent f final_flush self,
        first (add_newlines cur_indent f final_flush self) =
        first self
        && ((cur_indent =? 0)%Z && (0 <? length (splitlines f))
            && forallb is_comment_line (splitlines f)))
  /\ (forall (E : Engines) evs self,
        match run evs self with
        | Return self' => first self' && negb (first self) = false
        | Raise _ => True
        end).
Proof.
  split; [reflexivity|split].
  - apply first_add_newlines.
  - intros E evs self. apply first_run.
Qed.

(** C6 as stated fails: a commit at a non-zero indent makes [first] false. *)
Lemma C6_nested_commit_clears_first :
  first init = true
  /\ first (add_newlines 1 (py "    x = 1\n") false init) = false.
Proof. split; reflexivity. Qed.



(** C4, as the code has it.  In a top-level commit the lines of the block
    split into the lines before the trailing comments and the maximal
    suffix of comment lines; the held comments of before are written first,
    unchanged, then the lines before the trailing comments; the trailing
    comments become the new held comments, and are written to the output
    only when the commit is the final flush.  When a keyword header
    follows a commit that is not the final flush, the trailing comments come
    immediately before the header. *)
Theorem C4_trailing_comments_lag (self : Formatter) (f : str)
    (final_flush : bool) (name comment : str) :
  let ls := splitlines f in
  let s' := add_newlines 0 f final_flush self in
  let s1 := add_newlines 0 f false self in
  leading_lines ls ++ trailing_comments ls = ls
  /\ Forall (fun l => is_comment_line l = true) (trailing_comments ls)
  /\ match rev (leading_lines ls) with
     | [] => True
     | l :: _ => is_comment_line l = false
     end
  /\ lagging_comments s' = held_text ls
  /\ result s' =
     result self ++ (if first self then [] else [LF; LF])
     ++ lagging_comments self ++ committed_text ls
     ++ (if final_flush then held_text ls else [])
  /\ result (process_keyword_context 0 name comment s1) =
     result s1 ++ (if first s1 then [] else [LF; LF])
     ++ held_text ls ++ name ++ py ":" ++ comment ++ [LF].
Proof.
  intros ls s' s1.
  split; [apply leading_trailing|].
  destruct (trailing_comments_maximal ls) as [H1 H2].
  split; [exact H1|split; [exact H2|]].
  subst s' s1. unfold process_keyword_context.
  rewrite !add_newlines_top_level; simpl.
  rewrite ?app_nil_r, <- !app_assoc.
  repeat split; reflexivity.
Qed.

(** C4 as stated fails: at the final flush the trailing comments are
    written to the output at once. *)
Lemma C4_final_flush_not_withheld :
  let s := add_newlines 0 (py "x = 1\n# c\n") true init in
  trailing_comments (splitlines (py "x = 1\n# c\n")) = [py "# c"]
  /\ result s = py "x = 1\n# c\n"
  /\ lagging_comments s = py "# c\n".
Proof. repeat split; reflexivity. Qed.


(** ** The rendering of one parameter: [format_param] *)

Section FormatParam.

Context {E : Engines}.

Lemma format_param_invalid (parameter : Param) (target_indent : Z)
    (inline_formatting single_param : bool) :
  ast_parse (py "param(" ++ param_str parameter ++ py ")") = false ->
  format_param parameter target_indent inline_formatting single_param =
  Raise (InvalidParameterSyntax (line_nb parameter ++ param_str parameter)).
Proof.
  intros H. unfold format_param. rewrite H. reflexivity.
Qed.

Lemma format_param_valid_no_syntax_error (parameter : Param) (target_indent : Z)
    (inline_formatting single_param : bool) (msg : str) :
  ast_parse (py "param(" ++ param_str parameter ++ py ")") = true ->
  format_param parameter target_indent inline_formatting single_param <>
  Raise (InvalidParameterSyntax msg).
Proof.
  intros H. unfold format_param, run_black_format_str. rewrite H; simpl.
  destruct (black_format_str _); simpl; [|discriminate].
  destruct (has_a_key parameter); [|discriminate].
  destruct (match_equal _) as [[g1 g2]|]; discriminate.
Qed.

Lemma format_param_rejected (parameter : Param) (target_indent : Z)
    (inline_formatting single_param : bool) (msg : str) :
  ast_parse (py "param(" ++ param_str parameter ++ py ")") = true ->
  let val :=
    if inline_formatting then replace [LF] [] (param_str parameter)
    else param_str parameter in
  black_format_str val = InvalidInput msg ->
  format_param parameter target_indent inline_formatting single_param =
  Return
    (strip_chars [LF]
       (if contains (py "**") val then replace (py "** ") (py "**") val else val)
     ++ (if single_param then [] else py ",")
     ++ join ([LF] ++ str_mul TAB (if inline_formatting then 0 else target_indent))
          (comments parameter)
     ++ [LF]).
Proof.
  intros Hp val Hb. unfold format_param, run_black_format_str.
  rewrite Hp; simpl. fold val. rewrite Hb; simpl.
  destruct single_param; simpl; rewrite <- ?app_assoc; reflexivity.
Qed.

Lemma format_param_formatted (parameter : Param) (target_indent : Z)
    (inline_formatting single_param : bool) (fmted : str) :
  ast_parse (py "param(" ++ param_str parameter ++ py ")") = true ->
  black_format_str
    (if inline_formatting then replace [LF] [] (param_str parameter)
     else param_str parameter) = Formatted fmted ->
  has_a_key parameter = false ->
  format_param parameter target_indent inline_formatting single_param =
  Return
    (strip_chars [LF]
       (string_format fmted (if inline_formatting then 0 else target_indent))
     ++ (if single_param then [] else py ",")
     ++ join ([LF] ++ str_mul TAB (if inline_formatting then 0 else target_indent))
          (comments parameter)
     ++ [LF]).
Proof.
  intros Hp Hb Hk. unfold format_param, run_black_format_str.
  rewrite Hp; simpl. rewrite Hb, Hk; simpl.
  destruct single_param; simpl; rewrite <- ?app_assoc; reflexivity.
Qed.

End FormatParam.

(** C5.  When the parse of the value, wrapped in a call, fails,
    [format_param] raises [InvalidParameterSyntax] with the line number and
    the text of the value, whatever the layout; so does the value [def(],
    which [ast.parse] rejects. *)
Theorem C5_invalid_parameter_syntax (E : Engines) (parameter : Param)
    (target_indent : Z) (inline_formatting single_param : bool) :
  ast_parse (py "param(" ++ param_str parameter ++ py ")") = false ->
  format_param parameter target_indent inline_formatting single_param =
  Raise (InvalidParameterSyntax (line_nb parameter ++ param_str parameter)).
Proof. apply format_param_invalid. Qed.


Lemma C5_invalid_parameter_syntax_witness :
  @ast_parse recorded (py "param(" ++ param_str def_paren ++ py ")") = false
  /\ @format_param recorded def_paren 2 false false =
     Raise (InvalidParameterSyntax (py "L3: def(")).
Proof.
  assert (H : @ast_parse recorded (py "param(" ++ param_str def_paren ++ py ")") = false)
    by reflexivity.
  split; [exact H|].
  exact (@C5_invalid_parameter_syntax recorded def_paren 2 false false H).
Defined.

(** C9, as the code has it.  When the value passes the validity check and
    the formatter rejects it, no error is raised and the value is emitted
    without formatting: in inline layout its line breaks have been removed
    before the formatter is called; if it contains the double splat, every
    occurrence of the double splat followed by a space loses the space; the
    newlines at its two ends are stripped. *)
Theorem C9_formatting_failure_recovery (E : Engines) (parameter : Param)
    (target_indent : Z) (inline_formatting single_param : bool) (msg : str) :
  ast_parse (py "param(" ++ param_str parameter ++ py ")") = true ->
  let val :=
    if inline_formatting then replace [LF] [] (param_str parameter)
    else param_str parameter in
  black_format_str val = InvalidInput msg ->
  format_param parameter target_indent inline_formatting single_param =
  Return
    (strip_chars [LF]
       (if contains (py "**") val then replace (py "** ") (py "**") val else val)
     ++ (if single_param then [] else py ",")
     ++ join ([LF] ++ str_mul TAB (if inline_formatting then 0 else target_indent))
          (comments parameter)
     ++ [LF]).
Proof. apply format_param_rejected. Qed.


Lemma C9_formatting_failure_recovery_witness :
  @ast_parse recorded (py "param(" ++ param_str splat_config ++ py ")") = true
  /\ @black_format_str recorded (param_str splat_config)
     = InvalidInput (py "Cannot parse")
  /\ @format_param recorded splat_config 2 false false = Return (py "**config,\n").
Proof.
  assert (Hp : @ast_parse recorded (py "param(" ++ param_str splat_config ++ py ")") = true)
    by reflexivity.
  assert (Hb : @black_format_str recorded (param_str splat_config)
               = InvalidInput (py "Cannot parse")) by reflexivity.
  split; [exact Hp|split; [exact Hb|]].
  rewrite (@C9_formatting_failure_recovery recorded splat_config 2 false false
             (py "Cannot parse") Hp Hb).
  reflexivity.
Defined.


(** C9 as stated fails: in inline layout the value that the formatter
    rejects is emitted without its line break, not as it was written. *)
Lemma C9_inline_value_not_as_written :
  @ast_parse recorded (py "param(" ++ param_str generator_two_lines ++ py ")") = true
  /\ @black_format_str recorded (replace [LF] [] (param_str generator_two_lines))
     = InvalidInput (py "Cannot parse")
  /\ @format_param recorded generator_two_lines 1 true true
     = Return (py "x for x iny\n")
  /\ @format_param recorded generator_two_lines 1 true true
     <> Return (param_str generator_two_lines ++ [LF]).
Proof. repeat split; try reflexivity. discriminate. Qed.

(** ** White space and the head of an indented text *)

Lemma is_linebreak_is_space (c : char) :
  is_linebreak c = true -> is_space c = true.
Proof.
  unfold is_linebreak, is_space.
  rewrite !orb_true_iff, !andb_true_iff, !N.leb_le, !N.eqb_eq. lia.
Qed.

Lemma not_space_not_linebreak (c : char) :
  is_space c = false -> is_linebreak c = false.
Proof.
  intros H. destruct (is_linebreak c) eqn:Hl; [|reflexivity].
  apply is_linebreak_is_space in Hl; congruence.
Qed.

Lemma dropwhile_app_stop (f : char -> bool) (x y : str) (c : char) :
  f c = false -> dropwhile f (x ++ c :: y) = dropwhile f x ++ c :: y.
Proof.
  intros Hc. induction x as [|a x IH]; simpl.
  - now rewrite Hc.
  - destruct (f a); [exact IH|reflexivity].
Qed.

Lemma rstrip_with_stop (f : char -> bool) (u r : str) (c : char) :
  f c = false -> rstrip_with f (u ++ c :: r) = u ++ c :: rstrip_with f r.
Proof.
  intros Hc. unfold rstrip_with.
  rewrite rev_app_distr; simpl. rewrite <- app_assoc; simpl.
  rewrite dropwhile_app_stop by assumption.
  rewrite rev_app_distr; simpl. rewrite rev_involutive, <- app_assoc.
  reflexivity.
Qed.

Lemma splitlines_keepends_head (c : char) (x : str) :
  is_linebreak c = false ->
  exists l ls, splitlines_keepends (c :: x) = (c :: l) :: ls.
Proof.
  intros Hc. simpl. rewrite Hc.
  destruct (splitlines_keepends x) as [|l ls]; eauto.
Qed.

Lemma strip_head_not_space (c : char) (l : str) :
  is_space c = false -> is_empty (strip (c :: l)) = false.
Proof.
  intros Hc. unfold strip, strip_with, lstrip_with.
  simpl dropwhile. rewrite Hc.
  change (c :: l) with ([] ++ c :: l).
  rewrite (rstrip_with_stop is_space [] l c Hc). reflexivity.
Qed.

Lemma textwrap_indent_head (c : char) (x prefix : str) :
  is_space c = false ->
  exists rest, textwrap_indent (c :: x) prefix = prefix ++ c :: rest.
Proof.
  intros Hc.
  destruct (splitlines_keepends_head c x (not_space_not_linebreak c Hc)) as (l & ls & Hl).
  unfold textwrap_indent. rewrite Hl; simpl.
  unfold indent_line at 1. rewrite strip_head_not_space by assumption.
  exists (l ++ concat (map (indent_line prefix) ls)).
  rewrite <- app_assoc. reflexivity.
Qed.

(** ** The matches of the triple-quote matcher *)

Lemma find_close_bound (q : char) (s : str) (j : nat) :
  find_close q s = Some j -> j + 3 <= length s.
Proof.
  revert j; induction s as [|c s IH]; intros j; simpl; [discriminate|].
  destruct s as [|c1 [|c2 s]].
  - simpl. rewrite andb_false_r. discriminate.
  - simpl. rewrite !andb_false_r. simpl. discriminate.
  - destruct ((q =? c)%N && ((q =? c1)%N && ((q =? c2)%N && true))).
    + intros [= <-]. simpl; lia.
    + destruct (find_close q (c1 :: c2 :: s)) as [k|] eqn:Hk; [|discriminate].
      intros [= <-]. specialize (IH k eq_refl). simpl in *; lia.
Qed.

Lemma match_here_bound (s : str) (n : nat) :
  match_here s = Some n -> 6 <= n <= length s.
Proof.
  destruct s as [|a [|b [|c t]]]; try discriminate.
  unfold match_here.
  destruct (_ && _); [|discriminate].
  destruct (find_close a t) as [j|] eqn:Hj; [|discriminate].
  simpl. intros [= <-]. apply find_close_bound in Hj. lia.
Qed.

Lemma finditer_from_bounds (s : str) (skip pos a b : nat) :
  In (a, b) (finditer_from skip pos s) -> pos <= a /\ a + 6 <= b.
Proof.
  revert skip pos; induction s as [|c s IH]; intros skip pos; [simpl; tauto|].
  cbn [finditer_from].
  destruct skip as [|k].
  - destruct (match_here (c :: s)) as [n|] eqn:Hn.
    + cbn [In]. intros [[= <- <-]|H].
      * apply match_here_bound in Hn. lia.
      * apply IH in H. lia.
    + intros H. apply IH in H. lia.
  - intros H. apply IH in H. lia.
Qed.

(** ** The literal-aware indenter as a sequence of pieces *)

Lemma string_format_step_eq (string : str) (ti : Z) (pos : nat)
    (indented : str) (a b : nat) :
  string_format_step string ti (pos, indented) (a, b) =
  (b, indented ++ textwrap_indent (slice string pos a) (str_mul TAB ti)
        ++ format_match ti (slice string a b)).
Proof.
  unfold string_format_step, format_match; simpl.
  destruct (_ && _); rewrite <- ?app_assoc; reflexivity.
Qed.

Lemma fold_string_format_step (string : str) (ti : Z) (ms : list (nat * nat))
    (pos : nat) (indented : str) :
  (let '(pos', indented') :=
     fold_left (string_format_step string ti) ms (pos, indented) in
   indented' ++ textwrap_indent (skipn pos' string) (str_mul TAB ti))
  = indented ++ render string ti ms pos.
Proof.
  revert pos indented; induction ms as [|[a b] ms IH]; intros pos indented.
  - reflexivity.
  - cbn [fold_left]. rewrite string_format_step_eq, IH.
    cbn [render]. rewrite <- !app_assoc. reflexivity.
Qed.

Lemma string_format_render (string : str) (ti : Z) :
  string_format string ti = render string ti (finditer string) 0.
Proof.
  unfold string_format.
  exact (fold_string_format_step string ti (finditer string) 0 []).
Qed.

Lemma render_match (string : str) (ti : Z) (ms : list (nat * nat))
    (pos a b : nat) :
  In (a, b) ms ->
  exists pre post,
    render string ti ms pos = pre ++ format_match ti (slice string a b) ++ post.
Proof.
  revert pos; induction ms as [|[a' b'] ms IH]; intros pos; simpl; [tauto|].
  intros [[= -> ->]|H].
  - eexists _, _. reflexivity.
  - destruct (IH b' H) as (pre & post & Heq). rewrite Heq.
    exists (textwrap_indent (slice string pos a') (str_mul TAB ti)
            ++ format_match ti (slice string a' b') ++ pre), post.
    rewrite <- !app_assoc. reflexivity.
Qed.

Lemma str_mul_TAB_spaces (ti : Z) : Forall (fun c => c = SP) (str_mul TAB ti).
Proof.
  unfold str_mul. induction (Z.to_nat ti) as [|n IH]; simpl.
  - constructor.
  - repeat constructor. exact IH.
Qed.

Lemma replace_single (c : char) (new s : str) :
  replace [c] new s = flat_map (fun x => if (x =? c)%N then new else [x]) s.
Proof.
  unfold replace. induction s as [|x s IH]; simpl; [reflexivity|].
  rewrite andb_true_r, N.eqb_sym.
  destruct (x =? c)%N; simpl; rewrite IH; reflexivity.
Qed.

Lemma string_format_head (c : char) (x : str) (ti : Z) :
  is_space c = false ->
  exists c' rest,
    string_format (c :: x) ti = str_mul TAB ti ++ c' :: rest
    /\ is_space c' = false.
Proof.
  intros Hc. rewrite string_format_render.
  destruct (finditer (c :: x)) as [|[a b] ms] eqn:Hms; simpl.
  - destruct (textwrap_indent_head c x (str_mul TAB ti) Hc) as (rest & Hr).
    rewrite Hr. eauto.
  - assert (Hin : In (a, b) (finditer_from 0 0 (c :: x)))
      by (unfold finditer in Hms; rewrite Hms; left; reflexivity).
    apply finditer_from_bounds in Hin.
    destruct a as [|a].
    + unfold slice at 1; simpl.
      unfold format_match, slice; simpl skipn. rewrite Nat.sub_0_r.
      destruct b as [|b]; [lia|]. simpl firstn.
      rewrite replace_single. simpl flat_map.
      assert (Hht : (c =? HT)%N = false).
      { apply N.eqb_neq. intros ->. discriminate. }
      rewrite Hht.
      destruct (_ && _).
      * destruct (textwrap_indent_head DQ
                    ([DQ; DQ] ++ textwrap_dedent
                       (replace TRIPLE_DQ []
                          ([c] ++ flat_map (fun x0 => if (x0 =? HT)%N then TAB else [x0])
                                    (firstn b x))) ++ TRIPLE_DQ)
                    (str_mul TAB ti) eq_refl) as (rest & Hr).
        simpl in Hr |- *. rewrite Hr. rewrite <- app_assoc. simpl.
        exists DQ. eexists. split; reflexivity.
      * simpl. rewrite <- app_assoc. simpl. eauto.
    + unfold slice at 1; simpl skipn. rewrite Nat.sub_0_r. simpl firstn.
      destruct (textwrap_indent_head c (firstn a x) (str_mul TAB ti) Hc) as (rest & Hr).
      rewrite Hr. rewrite <- app_assoc. simpl. eauto.
Qed.

(** ** The rendering of a parameter group: [format_params] *)

Section FormatParams.

Context {E : Engines}.

Lemma format_params_loop_acc (elems : list Param) (ti : Z)
    (inline_fmting single_param : bool) (acc : str) :
  format_params_loop elems ti inline_fmting single_param acc =
  (body <- format_params_loop elems ti inline_fmting single_param [] ;;
   Return (acc ++ body)).
Proof.
  revert acc; induction elems as [|elem rest IH]; intros acc; simpl.
  - now rewrite app_nil_r.
  - destruct (format_param elem ti inline_fmting single_param) as [r|e]; simpl;
      [|reflexivity].
    rewrite (IH (acc ++ r)), (IH r).
    destruct (format_params_loop rest ti inline_fmting single_param []); simpl;
      [|reflexivity].
    now rewrite app_assoc.
Qed.

Lemma strip_lf_indented (used rest : str) (c : char) :
  Forall (fun x => x = SP) used -> is_space c = false ->
  exists rest', strip_chars [LF] (used ++ c :: rest) = used ++ c :: rest'.
Proof.
  intros Hu Hc.
  assert (Hlf : mem_char [LF] c = false).
  { unfold mem_char; simpl. rewrite orb_false_r.
    apply N.eqb_neq. intros ->. discriminate. }
  unfold strip_chars, strip_with, lstrip_with.
  assert (Hd : dropwhile (mem_char [LF]) (used ++ c :: rest) = used ++ c :: rest).
  { destruct Hu as [|x used Hx Hu]; cbn [app dropwhile].
    - now rewrite Hlf.
    - subst x. reflexivity. }
  rewrite Hd, rstrip_with_stop by assumption.
  eauto.
Qed.

Lemma format_param_indented (parameter : Param) (ti : Z) (single_param : bool)
    (c : char) (fmted : str) :
  ast_parse (py "param(" ++ param_str parameter ++ py ")") = true ->
  black_format_str (param_str parameter) = Formatted (c :: fmted) ->
  is_space c = false ->
  has_a_key parameter = false ->
  exists c' rest,
    format_param parameter ti false single_param
    = Return (str_mul TAB ti ++ c' :: rest)
    /\ is_space c' = false.
Proof.
  intros Hp Hb Hc Hk.
  rewrite (format_param_formatted parameter ti false single_param (c :: fmted) Hp Hb Hk).
  destruct (string_format_head c fmted ti Hc) as (c' & rest & Hs & Hc').
  rewrite Hs.
  destruct (strip_lf_indented (str_mul TAB ti) rest c' (str_mul_TAB_spaces ti) Hc')
    as (rest' & Hr).
  rewrite Hr. exists c'. eexists. split; [|exact Hc'].
  rewrite <- app_assoc. reflexivity.
Qed.

End FormatParams.

(** The layout of a single-parameter group that is not of the
    explicitly-inline kind: in a rule the keyword line ends in a line break
    and the parameters are rendered in block mode at the target indent of
    the group; outside a rule the keyword line ends in a space and the
    parameters are rendered inline after it.  In block mode a keyless value
    that the formatter accepts starts with the target indent of the group,
    one level deeper than the keyword. *)
Theorem rule_context_cancels_inline (E : Engines) (g : ParameterSyntax) :
  p_class g = SingleParam ->
  let ti := p_target_indent g in
  let header := str_mul TAB (ti - 1) ++ keyword_name g ++ py ":" ++ comment g in
  format_params g true =
    (body <- format_params_loop (all_params g) ti false true [] ;;
     Return (header ++ [LF] ++ body))
  /\ format_params g false =
    (body <- format_params_loop (all_params g) ti true true [] ;;
     Return (header ++ [SP] ++ body))
  /\ str_mul TAB ti = (if (0 <? ti)%Z then TAB else []) ++ str_mul TAB (ti - 1)
  /\ (forall parameter c fmted,
        ast_parse (py "param(" ++ param_str parameter ++ py ")") = true ->
        black_format_str (param_str parameter) = Formatted (c :: fmted) ->
        is_space c = false ->
        has_a_key parameter = false ->
        exists c' rest,
          format_param parameter ti false true
          = Return (str_mul TAB ti ++ c' :: rest)
          /\ is_space c' = false).
Proof.
  intros Hk ti header.
  split; [|split; [|split]].
  - unfold format_params. rewrite Hk; simpl.
    rewrite format_params_loop_acc.
    fold ti. subst header.
    destruct (format_params_loop (all_params g) ti false true []); simpl;
      [|reflexivity].
    rewrite <- !app_assoc. reflexivity.
  - unfold format_params. rewrite Hk; simpl.
    rewrite format_params_loop_acc.
    fold ti. subst header.
    destruct (format_params_loop (all_params g) ti true true []); simpl;
      [|reflexivity].
    rewrite <- !app_assoc. reflexivity.
  - unfold str_mul. destruct (Z.ltb_spec 0 ti) as [Hpos|Hneg].
    + replace (Z.to_nat ti) with (S (Z.to_nat (ti - 1))) by lia.
      reflexivity.
    + replace (Z.to_nat ti) with 0 by lia.
      replace (Z.to_nat (ti - 1)) with 0 by lia. reflexivity.
  - intros parameter c fmted Hp Hb Hc Hkey.
    exact (format_param_indented parameter ti true c fmted Hp Hb Hc Hkey).
Qed.

Lemma rule_context_cancels_inline_witness :
  p_class (threads_group SingleParam SnakeRule (py "threads")) = SingleParam
  /\ @format_params recorded
       (threads_group SingleParam SnakeRule (py "threads")) true
     = Return (py "    threads:\n        threads\n")
  /\ @format_params recorded
       (threads_group SingleParam SnakeRule (py "threads")) false
     = Return (py "    threads: threads\n").
Proof.
  assert (H : p_class (threads_group SingleParam SnakeRule (py "threads")) = SingleParam)
    by reflexivity.
  split; [exact H|].
  destruct (rule_context_cancels_inline recorded _ H) as (H1 & H2 & _).
  rewrite H1, H2. split; reflexivity.
Defined.

(** C8 fails on the code: in a rule, a value of a single-parameter group
    that the formatter rejects is emitted on its own line without any
    indentation, while the claim has it one level deeper than the keyword
    (as the code does for the values the formatter accepts). *)
Lemma C8_rejected_value_not_indented :
  @ast_parse recorded (py "param(**x)") = true
  /\ @black_format_str recorded (py "**x") = InvalidInput (py "Cannot parse")
  /\ @format_params recorded (threads_group SingleParam SnakeRule (py "**x")) true
     = Return (py "    threads:\n**x\n").
Proof. repeat split; reflexivity. Qed.

(** C2, as the code has it.  With the keyword [input] one level deep (the
    target indent of the group is 2) and the one parameter ["x.txt"], in a
    rule: the single-parameter kind that is not inline renders in block
    layout without a trailing comma, the parameter list renders in block
    layout with a trailing comma, and the explicitly-inline kind renders
    inline without a trailing comma. *)
Theorem C2_input_example (E : Engines) :
  ast_parse (py "param(\qx.txt\q)") = true ->
  black_format_str (py "\qx.txt\q") = Formatted (py "\qx.txt\q\n") ->
  format_params (input_group SingleParam 2) true
    = Return (py "    input:\n        \qx.txt\q\n")
  /\ format_params (input_group ParamList 2) true
    = Return (py "    input:\n        \qx.txt\q,\n")
  /\ format_params (input_group RuleInlineSingleParam 2) true
    = Return (py "    input: \qx.txt\q\n").
Proof.
  intros Hp Hb.
  set (p := {| param_str := py "\qx.txt\q"; comments := [];
               line_nb := py "L2: "; has_a_key := false |}).
  assert (Hp' : ast_parse (py "param(" ++ param_str p ++ py ")") = true)
    by exact Hp.
  assert (Hblock : forall single,
    format_param p 2 false single
    = Return (py "        \qx.txt\q" ++ (if single then [] else py ",") ++ [LF])).
  { intros single.
    rewrite (format_param_formatted p 2 false single (py "\qx.txt\q\n") Hp' Hb eq_refl).
    destruct single; reflexivity. }
  assert (Hinline : format_param p 2 true true = Return (py "\qx.txt\q\n")).
  { rewrite (format_param_formatted p 2 true true (py "\qx.txt\q\n") Hp' Hb eq_refl).
    reflexivity. }
  unfold format_params, input_group; cbn [p_class all_params p_target_indent
    keyword_name comment issubclass_SingleParam is_RuleInlineSingleParam
    andb negb format_params_loop].
  fold p.
  rewrite (Hblock true), (Hblock false), Hinline.
  repeat split; reflexivity.
Qed.

Lemma C2_input_example_witness :
  @ast_parse recorded (py "param(\qx.txt\q)") = true
  /\ @black_format_str recorded (py "\qx.txt\q") = Formatted (py "\qx.txt\q\n")
  /\ @format_params recorded (input_group SingleParam 2) true
     = Return (py "    input:\n        \qx.txt\q\n").
Proof.
  assert (Hp : @ast_parse recorded (py "param(\qx.txt\q)") = true) by reflexivity.
  assert (Hb : @black_format_str recorded (py "\qx.txt\q")
               = Formatted (py "\qx.txt\q\n")) by reflexivity.
  split; [exact Hp|split; [exact Hb|]].
  exact (proj1 (C2_input_example recorded Hp Hb)).
Defined.

(** C2 as stated fails: the single-parameter kind that is not inline gets
    no trailing comma, whether the target indent of the group is 2 (the
    keyword one level deep) or 1. *)
Lemma C2_single_param_no_trailing_comma :
  @format_params recorded (input_group SingleParam 2) true
    = Return (py "    input:\n        \qx.txt\q\n")
  /\ @format_params recorded (input_group SingleParam 2) true
    <> Return (py "    input:\n        \qx.txt\q,\n")
  /\ @format_params recorded (input_group SingleParam 1) true
    = Return (py "input:\n    \qx.txt\q\n")
  /\ @format_params recorded (input_group SingleParam 1) true
    <> Return (py "    input:\n        \qx.txt\q,\n").
Proof. repeat split; try reflexivity; discriminate. Qed.

(** ** Tab characters *)

Lemma count_char_app (c : char) (a b : str) :
  count_char c (a ++ b) = count_char c a + count_char c b.
Proof. unfold count_char. now rewrite filter_app, length_app. Qed.

Lemma count_char_zero_iff (c : char) (s : str) :
  count_char c s = 0 <-> Forall (fun x => x <> c) s.
Proof.
  unfold count_char. induction s as [|x s IH]; simpl.
  - split; [constructor|reflexivity].
  - destruct (N.eqb_spec c x) as [->|Hne]; simpl.
    + split; [discriminate|]. intros H; inversion H; congruence.
    + rewrite IH. split.
      * intros H; constructor; [congruence|exact H].
      * intros H; inversion H; assumption.
Qed.

Lemma concat_splitlines_keepends_upto (n : nat) (s : str) :
  length s <= n -> concat (splitlines_keepends s) = s.
Proof.
  revert s; induction n as [|n IH]; intros s Hlen.
  - destruct s; [reflexivity|simpl in Hlen; lia].
  - destruct s as [|c s]; [reflexivity|].
    simpl in Hlen. cbn [splitlines_keepends].
    destruct (is_linebreak c).
    + destruct s as [|d s'].
      * reflexivity.
      * destruct ((c =? CR)%N && (d =? LF)%N); cbn [concat app].
        -- rewrite IH by (simpl in Hlen; lia). reflexivity.
        -- rewrite IH by lia. reflexivity.
    + pose proof (IH s ltac:(lia)) as Hs.
      destruct (splitlines_keepends s) as [|l ls].
      * simpl in Hs; subst s. reflexivity.
      * simpl in Hs |- *. now rewrite Hs.
Qed.

Lemma concat_splitlines_keepends (s : str) : concat (splitlines_keepends s) = s.
Proof. exact (concat_splitlines_keepends_upto (length s) s (le_n _)). Qed.

Lemma count_indent_line (c : char) (prefix line : str) :
  count_char c prefix = 0 ->
  count_char c (indent_line prefix line) = count_char c line.
Proof.
  intros Hp. unfold indent_line.
  destruct (is_empty (strip line)); [reflexivity|].
  now rewrite count_char_app, Hp.
Qed.

Lemma count_textwrap_indent (c : char) (text prefix : str) :
  count_char c prefix = 0 ->
  count_char c (textwrap_indent text prefix) = count_char c text.
Proof.
  intros Hp. unfold textwrap_indent.
  rewrite <- (concat_splitlines_keepends text) at 2.
  induction (splitlines_keepends text) as [|l ls IH]; simpl; [reflexivity|].
  now rewrite !count_char_app, count_indent_line, IH.
Qed.

Lemma count_str_mul_TAB (c : char) (ti : Z) :
  c <> SP -> count_char c (str_mul TAB ti) = 0.
Proof.
  intros Hc. apply count_char_zero_iff.
  eapply Forall_impl; [|apply str_mul_TAB_spaces].
  simpl; intros x ->. congruence.
Qed.

Lemma replace_tabs (s : str) : replace [HT] TAB s = expand_tabs s.
Proof. apply replace_single. Qed.

Lemma count_expand_tabs (c : char) (s : str) :
  c <> SP -> c <> HT -> count_char c (expand_tabs s) = count_char c s.
Proof.
  intros Hsp Hht. unfold expand_tabs.
  induction s as [|x s IH]; simpl; [reflexivity|].
  rewrite count_char_app, IH.
  destruct (N.eqb_spec x HT) as [->|Hx].
  - unfold count_char; simpl.
    destruct (N.eqb_spec c SP); [congruence|].
    destruct (N.eqb_spec c HT); [congruence|]. reflexivity.
  - change (x :: s) with ([x] ++ s). now rewrite count_char_app.
Qed.

Lemma expand_tabs_no_tab (s : str) : Forall (fun x => x <> HT) (expand_tabs s).
Proof.
  unfold expand_tabs. induction s as [|x s IH]; simpl; [constructor|].
  apply Forall_app; split; [|exact IH].
  destruct (N.eqb_spec x HT) as [->|Hx].
  - repeat constructor; discriminate.
  - repeat constructor; assumption.
Qed.

Section Preservation.

(** A property of characters that an operation which only removes
    characters, or adds line feeds, preserves. *)
Variable P : char -> Prop.

Lemma Forall_skipn_str (n : nat) (s : str) : Forall P s -> Forall P (skipn n s).
Proof.
  intros H. rewrite <- (firstn_skipn n s) in H.
  apply Forall_app in H; tauto.
Qed.

Lemma Forall_replace_from (old new : str) (skip : nat) (s : str) :
  Forall P new -> Forall P s -> Forall P (replace_from old new skip s).
Proof.
  intros Hn. revert skip; induction s as [|c s IH]; intros skip Hs; simpl.
  - constructor.
  - inversion Hs as [|? ? Hc Hs']; subst.
    destruct skip as [|k]; [|now apply IH].
    destruct (startswith old (c :: s)).
    + apply Forall_app; split; [assumption|now apply IH].
    + constructor; [assumption|now apply IH].
Qed.

Lemma Forall_split_lf (s : str) : Forall P s -> Forall (Forall P) (split_lf s).
Proof.
  induction s as [|c s IH]; intros H; simpl.
  - repeat constructor.
  - inversion H as [|? ? Hc Hs]; subst. specialize (IH Hs).
    destruct (c =? LF)%N.
    + constructor; [constructor|exact IH].
    + destruct (split_lf s) as [|l ls].
      * repeat constructor; assumption.
      * inversion IH; subst. constructor; [constructor; assumption|assumption].
Qed.

Lemma Forall_join (sep : str) (ls : list str) :
  Forall P sep -> Forall (Forall P) ls -> Forall P (join sep ls).
Proof.
  intros Hsep. induction ls as [|l ls IH]; intros H; simpl.
  - constructor.
  - inversion H as [|? ? Hl Hls]; subst.
    destruct ls as [|l' ls']; [assumption|].
    apply Forall_app; split; [assumption|].
    apply Forall_app; split; [assumption|now apply IH].
Qed.

Lemma Forall_textwrap_dedent (text : str) :
  P LF -> Forall P text -> Forall P (textwrap_dedent text).
Proof.
  intros Hlf Ht. unfold textwrap_dedent.
  assert (Hb : Forall (Forall P) (map blank_out (split_lf text))).
  { apply Forall_map. eapply Forall_impl; [|apply Forall_split_lf; exact Ht].
    intros l Hl. unfold blank_out. destruct (forallb is_blank l);
      [constructor|assumption]. }
  assert (Hsep : Forall P [LF]) by (repeat constructor; assumption).
  destruct (fold_left margin_step _ None) as [[|c m]|];
    try (apply Forall_join; assumption).
  apply Forall_join; [assumption|].
  apply Forall_map. eapply Forall_impl; [|exact Hb].
  intros l Hl. unfold remove_margin.
  destruct (startswith (c :: m) l); [|assumption].
  now apply Forall_skipn_str.
Qed.

End Preservation.

Lemma count_format_match_tab (ti : Z) (m : str) :
  count_char HT (format_match ti m) = 0.
Proof.
  unfold format_match. rewrite replace_tabs.
  assert (Hu : count_char HT (str_mul TAB ti) = 0)
    by (apply count_str_mul_TAB; discriminate).
  pose proof (expand_tabs_no_tab m) as He.
  destruct (_ && _).
  - rewrite count_textwrap_indent by exact Hu.
    apply count_char_zero_iff.
    apply Forall_app; split; [repeat constructor; discriminate|].
    apply Forall_app; split; [|repeat constructor; discriminate].
    apply Forall_textwrap_dedent; [discriminate|].
    apply Forall_replace_from; [constructor|exact He].
  - rewrite count_char_app, Hu. simpl.
    apply count_char_zero_iff. exact He.
Qed.

Lemma count_render_tab (string : str) (ti : Z) (ms : list (nat * nat)) (pos : nat) :
  count_char HT (render string ti ms pos) = count_char HT (outside string ms pos).
Proof.
  assert (Hu : count_char HT (str_mul TAB ti) = 0)
    by (apply count_str_mul_TAB; discriminate).
  revert pos; induction ms as [|[a b] ms IH]; intros pos; simpl.
  - now apply count_textwrap_indent.
  - rewrite !count_char_app, count_textwrap_indent, count_format_match_tab, IH
      by exact Hu.
    simpl. reflexivity.
Qed.


Example C10_example :
  finditer (py "a\t= \q\q\qx\ty\q\q\q\t# c") = [(4, 13)]
  /\ string_format (py "a\t= \q\q\qx\ty\q\q\q\t# c") 0
     = py "a\t= \q\q\qx    y\q\q\q\t# c"
  /\ string_format (py "a\t= \q\q\qx\ty\q\q\q\t# c") 1
     = py "    a\t=     \q\q\qx    y\q\q\q    \t# c".
Proof. repeat split; reflexivity. Qed.

(** * Further properties of the formatter *)

(** ** [flush_buffer] *)

(** A flush of an empty or white-space-only buffer writes the buffer as it
    is and clears it, whatever the flags and the engines: it adds no
    separator, leaves [first] as it is, and commits no held comments, not
    even at top level on the final flush. *)
Theorem flush_buffer_blank (E : Engines) (from_python final_flush : bool)
    (self : Formatter) :
  blank_buffer self = true ->
  exists self',
    flush_buffer from_python final_flush self = Return self'
    /\ result self' = result self ++ buffer self
    /\ buffer self' = []
    /\ lagging_comments self' = lagging_comments self
    /\ first self' = first self
    /\ target_indent self' = target_indent self.
Proof.
  intros Hb. unfold blank_buffer in Hb. unfold flush_buffer. rewrite Hb.
  eexists. repeat split.
Qed.

Lemma flush_buffer_blank_witness :
  blank_buffer
    (set_buffer (py "\n \n") (add_newlines 0 (py "x = 1\n# c\n") false init)) = true
  /\ exists self',
       @flush_buffer recorded false true
         (set_buffer (py "\n \n") (add_newlines 0 (py "x = 1\n# c\n") false init))
       = Return self'
       /\ result self' = py "x = 1\n\n \n"
       /\ lagging_comments self' = py "# c\n".
Proof.
  assert (H : blank_buffer
    (set_buffer (py "\n \n") (add_newlines 0 (py "x = 1\n# c\n") false init)) = true)
    by reflexivity.
  split; [exact H|].
  destruct (flush_buffer_blank recorded false true _ H)
    as (self' & Hf & Hr & _ & Hl & _).
  exists self'. split; [exact Hf|]. rewrite Hr, Hl. split; reflexivity.
Defined.

(** [flush_buffer] fails exactly when the buffer is neither empty nor
    white space only, the text is not from Python, and the code formatter
    rejects the buffer; the error is then [InvalidPython] with the message
    of the formatter inside. *)
Theorem flush_buffer_raises_iff (E : Engines) (from_python final_flush : bool)
    (self : Formatter) (e : exn) :
  flush_buffer from_python final_flush self = Raise e
  <-> blank_buffer self = false /\ from_python = false
      /\ exists msg,
           black_format_str (buffer self) = InvalidInput msg
           /\ e = InvalidPython
                    (py "Got error:\n```\n" ++ msg
                     ++ py "\n```\nwhile formatting code with black.").
Proof.
  unfold flush_buffer, blank_buffer, run_black_format_str.
  destruct ((length (buffer self) =? 0) || isspace (buffer self)).
  - split; [discriminate|]. intros (H & _); discriminate.
  - destruct from_python; simpl.
    + split; [discriminate|]. intros (_ & H & _); discriminate.
    + destruct (black_format_str (buffer self)) as [f|msg]; simpl.
      * split; [discriminate|]. intros (_ & _ & m & H & _); discriminate.
      * split.
        -- intros [= <-]. repeat split. exists msg. split; reflexivity.
        -- intros (_ & _ & m & [= <-] & ->). reflexivity.
Qed.

Lemma rstrip_with_spec (f : char -> bool) (s : str) :
  exists t, s = rstrip_with f s ++ t /\ forallb f t = true
            /\ match rev (rstrip_with f s) with
               | [] => True
               | c :: _ => f c = false
               end.
Proof.
  unfold rstrip_with. rewrite rev_involutive.
  assert (H : forall r, exists t, r = t ++ dropwhile f r /\ forallb f t = true).
  { induction r as [|c r (t & Ht & Hf)]; simpl.
    - exists []. split; reflexivity.
    - destruct (f c) eqn:Hc.
      + exists (c :: t). simpl. rewrite Hc, Hf. split; [now f_equal|reflexivity].
      + exists []. split; reflexivity. }
  destruct (H (rev s)) as (t & Ht & Hf).
  exists (rev t). split; [|split].
  - rewrite <- rev_app_distr, <- Ht, rev_involutive. reflexivity.
  - now rewrite forallb_rev.
  - apply dropwhile_head.
Qed.

(** A flush of text from Python that is not blank does not call the
    formatter: it writes the buffer without its trailing spaces, any number
    of them, and changes nothing else but the buffer, which it clears. *)
Theorem flush_buffer_from_python (E : Engines) (final_flush : bool)
    (self : Formatter) :
  blank_buffer self = false ->
  exists self' written spaces,
    flush_buffer true final_flush self = Return self'
    /\ result self' = result self ++ written
    /\ buffer self = written ++ spaces
    /\ forallb (N.eqb SP) spaces = true
    /\ match rev written with [] => True | c :: _ => c <> SP end
    /\ buffer self' = []
    /\ lagging_comments self' = lagging_comments self
    /\ first self' = first self.
Proof.
  intros Hb. unfold blank_buffer in Hb. unfold flush_buffer. rewrite Hb; simpl.
  destruct (rstrip_with_spec (mem_char TAB) (buffer self)) as (t & Ht & Hf & Hlast).
  exists (set_buffer [] (add_result (rstrip_chars TAB (buffer self)) self)),
         (rstrip_chars TAB (buffer self)), t.
  assert (Hmem : forall c, mem_char TAB c = (SP =? c)%N).
  { intros c. unfold mem_char, TAB; cbn [existsb].
    rewrite (N.eqb_sym c SP). destruct (SP =? c)%N; reflexivity. }
  repeat split; try assumption.
  - rewrite <- Hf. clear Ht Hf.
    induction t as [|c t IHt]; cbn [forallb]; [reflexivity|].
    now rewrite IHt, Hmem.
  - unfold rstrip_chars. destruct (rev (rstrip_with (mem_char TAB) (buffer self)))
      as [|c r]; [exact I|].
    rewrite Hmem in Hlast. apply N.eqb_neq in Hlast. congruence.
Qed.

Lemma flush_buffer_from_python_witness :
  blank_buffer (set_buffer (py "rule a:\n      ") init) = false
  /\ exists self',
       @flush_buffer recorded true false (set_buffer (py "rule a:\n      ") init)
       = Return self'
       /\ result self' = py "rule a:\n".
Proof.
  assert (H : blank_buffer (set_buffer (py "rule a:\n      ") init) = false)
    by reflexivity.
  split; [exact H|].
  destruct (flush_buffer_from_python recorded false _ H)
    as (self' & w & sp & Hf & _).
  exists self'. split; [exact Hf|].
  vm_compute in Hf. injection Hf as <-. reflexivity.
Defined.

(** ** The output only grows; the held comments are comment lines *)

Lemma is_prefix_app (a s : str) : is_prefix a (a ++ s).
Proof. exists s. reflexivity. Qed.

Lemma result_add_newlines_prefix (cur_indent : Z) (f : str) (final_flush : bool)
    (self : Formatter) :
  is_prefix (result self) (result (add_newlines cur_indent f final_flush self)).
Proof.
  destruct (Z.eq_dec cur_indent 0) as [->|Hne].
  - rewrite add_newlines_top_level; simpl. apply is_prefix_app.
  - rewrite add_newlines_nested by assumption; simpl. apply is_prefix_app.
Qed.

Lemma is_prefix_trans (a b c : str) : is_prefix a b -> is_prefix b c -> is_prefix a c.
Proof.
  intros [s ->] [t ->]. exists (s ++ t). now rewrite app_assoc.
Qed.

(** Every operation of the formatter that writes to the output appends to
    it: what has been written is never changed or removed. *)
Theorem output_only_grows (E : Engines) (self : Formatter) :
  (forall cur_indent f final_flush,
      is_prefix (result self) (result (add_newlines cur_indent f final_flush self)))
  /\ (forall cur_indent name comment,
        is_prefix (result self)
          (result (process_keyword_context cur_indent name comment self)))
  /\ (forall from_python final_flush self',
        flush_buffer from_python final_flush self = Return self' ->
        is_prefix (result self) (result self'))
  /\ (forall param_context self',
        process_keyword_param param_context self = Return self' ->
        is_prefix (result self) (result self')).
Proof.
  split; [|split; [|split]].
  - intros. apply result_add_newlines_prefix.
  - intros. unfold process_keyword_context; simpl.
    eapply is_prefix_trans; [apply result_add_newlines_prefix|apply is_prefix_app].
  - intros from_python final_flush self'. unfold flush_buffer.
    destruct (_ || _).
    + intros [= <-]; simpl. apply is_prefix_app.
    + destruct from_python; simpl.
      * intros [= <-]; simpl. apply is_prefix_app.
      * destruct (run_black_format_str (buffer self)); simpl; [|discriminate].
        intros [= <-]; simpl. apply result_add_newlines_prefix.
  - intros param_context self'. unfold process_keyword_param.
    destruct (format_params param_context _); simpl; [|discriminate].
    intros [= <-]; simpl.
    eapply is_prefix_trans; [apply result_add_newlines_prefix|apply is_prefix_app].
Qed.

Lemma held_text_comment_block (ls : list str) : comment_block (held_text ls).
Proof.
  unfold held_text.
  destruct (trailing_comments_maximal ls) as [H _].
  destruct (trailing_comments ls) as [|l r] eqn:Ht.
  - left; reflexivity.
  - right. exists (l :: r). split; [discriminate|]. split; [exact H|reflexivity].
Qed.

Lemma lagging_add_newlines (cur_indent : Z) (f : str) (final_flush : bool)
    (self : Formatter) :
  comment_block (lagging_comments self) ->
  comment_block (lagging_comments (add_newlines cur_indent f final_flush self)).
Proof.
  intros H. destruct (Z.eq_dec cur_indent 0) as [->|Hne].
  - rewrite add_newlines_top_level; simpl. apply held_text_comment_block.
  - rewrite add_newlines_nested by assumption; simpl. exact H.
Qed.

(** The held comments are always a run of comment lines: they are so at
    the start, every commit holds back nothing but the trailing comment
    lines of its block, with their line ends normalised to line feeds, and
    no other operation changes them. *)
Theorem lagging_comments_are_comments (E : Engines) :
  comment_block (lagging_comments init)
  /\ (forall cur_indent f final_flush self,
        cur_indent = 0%Z ->
        comment_block (lagging_comments (add_newlines cur_indent f final_flush self))
        /\ lagging_comments (add_newlines cur_indent f final_flush self)
           = held_text (splitlines f))
  /\ (forall cur_indent f final_flush self,
        cur_indent <> 0%Z ->
        lagging_comments (add_newlines cur_indent f final_flush self)
        = lagging_comments self)
  /\ (forall ev self self',
        comment_block (lagging_comments self) ->
        step ev self = Return self' ->
        comment_block (lagging_comments self')).
Proof.
  split; [left; reflexivity|split; [|split]].
  - intros cur_indent f final_flush self ->.
    rewrite add_newlines_top_level; simpl.
    split; [apply held_text_comment_block|reflexivity].
  - intros cur_indent f final_flush self Hne.
    now rewrite add_newlines_nested.
  - intros ev self self' H. destruct ev; simpl.
    + unfold flush_buffer; simpl.
      destruct (_ || _).
      * intros [= <-]; simpl. exact H.
      * destruct from_python; simpl.
        -- intros [= <-]; simpl. exact H.
        -- destruct (run_black_format_str text); simpl; [|discriminate].
           intros [= <-]; simpl. now apply lagging_add_newlines.
    + intros [= <-]. unfold process_keyword_context; simpl.
      now apply lagging_add_newlines.
    + unfold process_keyword_param.
      destruct (format_params param_context _); simpl; [|discriminate].
      intros [= <-]; simpl. now apply lagging_add_newlines.
Qed.

(** ** [process_keyword_context] *)

(** A keyword header is written as the indentation, the keyword, a colon,
    the comment and a line feed.  At top level it comes after the separator
    of two line feeds (unless [first] is still true) and after the held
    comments, which are then no longer held; at any other indent it is
    appended as it is and the held comments stay held.  In both cases
    [first] is false afterwards. *)
Theorem process_keyword_context_writes (cur_indent : Z) (name comment : str)
    (self : Formatter) :
  let self' := process_keyword_context cur_indent name comment self in
  let header := str_mul TAB cur_indent ++ name ++ py ":" ++ comment ++ [LF] in
  first self' = false
  /\ buffer self' = buffer self
  /\ (if (cur_indent =? 0)%Z
      then result self' =
             result self ++ (if first self then [] else [LF; LF])
             ++ lagging_comments self ++ name ++ py ":" ++ comment ++ [LF]
           /\ lagging_comments self' = []
      else result self' = result self ++ header
           /\ lagging_comments self' = lagging_comments self).
Proof.
  intros self' header. subst self' header. unfold process_keyword_context.
  destruct (Z.eqb_spec cur_indent 0) as [->|Hne].
  - rewrite add_newlines_top_level; simpl.
    rewrite andb_false_r, !app_nil_r, <- !app_assoc. repeat split.
  - rewrite add_newlines_nested by assumption; simpl.
    rewrite app_nil_r. repeat split.
Qed.

(** ** Blocks that end with an empty line *)

Lemma join_app_empty_line (ls : list str) :
  ls <> [] -> join [LF] (ls ++ [[]]) = join [LF] ls ++ [LF].
Proof.
  induction ls as [|l ls IH]; intros Hne; [congruence|].
  destruct ls as [|l' ls'].
  - simpl. reflexivity.
  - change (join [LF] ((l :: l' :: ls') ++ [[]]))
      with (l ++ [LF] ++ join [LF] ((l' :: ls') ++ [[]])).
    rewrite IH by discriminate.
    change (join [LF] (l :: l' :: ls')) with (l ++ [LF] ++ join [LF] (l' :: ls')).
    now rewrite <- !app_assoc.
Qed.

Lemma rstrip_app_space (s : str) (c : char) :
  is_space c = true -> rstrip (s ++ [c]) = rstrip s.
Proof.
  intros Hc. unfold rstrip, rstrip_with.
  rewrite rev_app_distr; simpl. now rewrite Hc.
Qed.

(** When the last line of a top-level block is empty, its trailing comment
    lines are not held back: the whole block is committed, right-stripped,
    and no comments are held afterwards. *)
Theorem add_newlines_empty_last_line (f : str) (final_flush : bool)
    (self : Formatter) (ls : list str) :
  splitlines f = ls ++ [[]] ->
  let self' := add_newlines 0 f final_flush self in
  lagging_comments self' = []
  /\ first self' = false
  /\ result self' =
     result self ++ (if first self then [] else [LF; LF])
     ++ lagging_comments self ++ rstrip (join [LF] ls) ++ [LF].
Proof.
  intros Hls self'. subst self'.
  rewrite add_newlines_top_level; simpl.
  assert (Hc : count_comment_lines (rev (splitlines f)) = 0)
    by (rewrite Hls, rev_app_distr; reflexivity).
  assert (Hk : comment_break_of (splitlines f) = length (splitlines f))
    by (unfold comment_break_of; rewrite Hc; lia).
  assert (Hlen : length (splitlines f) = S (length ls))
    by (rewrite Hls, length_app; simpl; lia).
  assert (Hheld : held_text (splitlines f) = []).
  { rewrite held_text_eq, Hc. reflexivity. }
  assert (Hcomm : committed_text (splitlines f) = rstrip (join [LF] ls) ++ [LF]).
  { rewrite committed_text_eq, Hk, Hlen. simpl Nat.ltb.
    rewrite <- Hlen, firstn_all, Hls.
    destruct ls as [|l ls'].
    - reflexivity.
    - rewrite join_app_empty_line by discriminate.
      now rewrite rstrip_app_space. }
  rewrite Hheld, Hcomm, Hk, Hlen. simpl.
  rewrite andb_false_r. destruct final_flush; rewrite ?app_nil_r; repeat split.
Qed.

Lemma add_newlines_empty_last_line_witness :
  splitlines (py "x = 1\n# c\n\n") = [py "x = 1"; py "# c"] ++ [[]]
  /\ lagging_comments (add_newlines 0 (py "x = 1\n# c\n\n") false init) = []
  /\ result (add_newlines 0 (py "x = 1\n# c\n\n") false init) = py "x = 1\n# c\n".
Proof.
  assert (H : splitlines (py "x = 1\n# c\n\n") = [py "x = 1"; py "# c"] ++ [[]])
    by reflexivity.
  split; [exact H|].
  destruct (add_newlines_empty_last_line (py "x = 1\n# c\n\n") false init _ H)
    as (Hl & _ & Hr).
  split; [exact Hl|]. rewrite Hr. reflexivity.
Defined.

(** ** How [format_params] composes the parameters *)

Section Composition.

Context {E : Engines}.

Lemma format_params_eq (g : ParameterSyntax) (in_rule : bool) :
  format_params g in_rule =
  (body <- format_params_loop (all_params g) (p_target_indent g)
             (inline_layout g in_rule) (issubclass_SingleParam (p_class g)) [] ;;
   Return (params_header g in_rule ++ body)).
Proof.
  unfold format_params, params_header, inline_layout.
  rewrite format_params_loop_acc.
  destruct (issubclass_SingleParam (p_class g)), in_rule,
    (is_RuleInlineSingleParam (p_class g)); simpl;
    destruct (format_params_loop _ _ _ _ []); simpl;
    rewrite <- ?app_assoc; simpl; rewrite <- ?app_assoc; reflexivity.
Qed.

Lemma format_params_loop_all (elems : list Param) (rs : list str) (ti : Z)
    (inline single : bool) :
  Forall2 (fun p r => format_param p ti inline single = Return r) elems rs ->
  format_params_loop elems ti inline single [] = Return (concat rs).
Proof.
  induction 1 as [|p r elems rs Hp _ IH]; simpl; [reflexivity|].
  rewrite Hp; simpl. rewrite format_params_loop_acc, IH. reflexivity.
Qed.

Lemma format_params_loop_first_error (before after : list Param) (p : Param)
    (rs : list str) (ti : Z) (inline single : bool) (e : exn) :
  Forall2 (fun p r => format_param p ti inline single = Return r) before rs ->
  format_param p ti inline single = Raise e ->
  format_params_loop (before ++ p :: after) ti inline single [] = Raise e.
Proof.
  intros Hb Hp. induction Hb as [|q r before rs Hq _ IH]; simpl.
  - rewrite Hp. reflexivity.
  - rewrite Hq; simpl. rewrite format_params_loop_acc, IH. reflexivity.
Qed.

End Composition.

(** When every parameter of a group renders, the group renders as its
    header line (ended by a space in inline layout, by a line feed in block
    layout) followed by the renderings of the parameters in order; a group
    without parameters renders as its header alone. *)
Theorem format_params_concatenates (E : Engines) (g : ParameterSyntax)
    (in_rule : bool) (rs : list str) :
  Forall2
    (fun p r =>
       format_param p (p_target_indent g) (inline_layout g in_rule)
         (issubclass_SingleParam (p_class g)) = Return r)
    (all_params g) rs ->
  format_params g in_rule = Return (params_header g in_rule ++ concat rs).
Proof.
  intros H. rewrite format_params_eq, (format_params_loop_all _ _ _ _ _ H).
  reflexivity.
Qed.

Lemma format_params_concatenates_witness :
  Forall2
    (fun p r =>
       @format_param recorded_keyed p 2 false false = Return r)
    [x_txt_param; keyed_param]
    [py "        \qx.txt\q,\n"; py "        mem=4,  # GB\n"]
  /\ @format_params recorded_keyed (input_list_group [x_txt_param; keyed_param]) true
     = Return (py "    input:  # in\n        \qx.txt\q,\n        mem=4,  # GB\n").
Proof.
  assert (H : Forall2
    (fun p r => @format_param recorded_keyed p 2 false false = Return r)
    [x_txt_param; keyed_param]
    [py "        \qx.txt\q,\n"; py "        mem=4,  # GB\n"])
    by (repeat constructor).
  split; [exact H|].
  rewrite (format_params_concatenates recorded_keyed
             (input_list_group [x_txt_param; keyed_param]) true _ H).
  reflexivity.
Defined.

(** The first parameter that fails to render makes the whole group fail
    with the error of that parameter: nothing of the group is returned. *)
Theorem format_params_first_error (E : Engines) (g : ParameterSyntax)
    (in_rule : bool) (before after : list Param) (p : Param) (rs : list str)
    (e : exn) :
  all_params g = before ++ p :: after ->
  Forall2
    (fun p r =>
       format_param p (p_target_indent g) (inline_layout g in_rule)
         (issubclass_SingleParam (p_class g)) = Return r)
    before rs ->
  format_param p (p_target_indent g) (inline_layout g in_rule)
    (issubclass_SingleParam (p_class g)) = Raise e ->
  format_params g in_rule = Raise e.
Proof.
  intros Ha Hb Hp. rewrite format_params_eq, Ha.
  rewrite (format_params_loop_first_error _ _ _ _ _ _ _ _ Hb Hp). reflexivity.
Qed.

Lemma format_params_first_error_witness :
  @format_params recorded_keyed
    (input_list_group [x_txt_param; def_paren; keyed_param]) true
  = Raise (InvalidParameterSyntax (py "L3: def(")).
Proof.
  apply (format_params_first_error recorded_keyed
           (input_list_group [x_txt_param; def_paren; keyed_param]) true
           [x_txt_param] [keyed_param] def_paren [py "        \qx.txt\q,\n"]).
  - reflexivity.
  - repeat constructor.
  - reflexivity.
Defined.

(** ** Keyed parameters *)

Lemma startswith_equals_short (x g2 : str) :
  x <> [] ->
  startswith (py " = ") (x ++ py " = " ++ g2) = startswith (py " = ") (x ++ py " =").
Proof.
  intros Hx. destruct x as [|a [|b [|c x]]]; [congruence| | |];
    cbn [app startswith py unescape]; simpl; rewrite ?andb_true_r; reflexivity.
Qed.

Lemma match_equal_first (g1 g2 : str) :
  contains (py " = ") (g1 ++ py " =") = false ->
  match_equal (g1 ++ py " = " ++ g2) = Some (g1, g2).
Proof.
  induction g1 as [|c g1 IH]; intros Hc.
  - reflexivity.
  - cbn [contains app] in Hc. apply orb_false_iff in Hc as [Hs Hc].
    change ((c :: g1) ++ py " = " ++ g2) with (c :: (g1 ++ py " = " ++ g2)).
    cbn [match_equal].
    change (c :: g1 ++ py " = " ++ g2) with ((c :: g1) ++ py " = " ++ g2).
    rewrite startswith_equals_short by discriminate.
    change ((c :: g1) ++ py " =") with (c :: g1 ++ py " =").
    rewrite Hs, (IH Hc). reflexivity.
Qed.

(** A keyed parameter that the formatter accepts loses the two spaces
    around its first equals sign: if the formatted and indented text is
    [g1 = g2], with no other " = " before, the value rendered is [g1=g2]. *)
Theorem format_param_keyed (E : Engines) (parameter : Param) (ti : Z)
    (inline single : bool) (fmted g1 g2 : str) :
  ast_parse (py "param(" ++ param_str parameter ++ py ")") = true ->
  black_format_str
    (if inline then replace [LF] [] (param_str parameter)
     else param_str parameter) = Formatted fmted ->
  has_a_key parameter = true ->
  string_format fmted (if inline then 0%Z else ti) = g1 ++ py " = " ++ g2 ->
  contains (py " = ") (g1 ++ py " =") = false ->
  format_param parameter ti inline single =
  Return
    (strip_chars [LF] (g1 ++ py "=" ++ g2)
     ++ (if single then [] else py ",")
     ++ join ([LF] ++ str_mul TAB (if inline then 0 else ti)) (comments parameter)
     ++ [LF]).
Proof.
  intros Hp Hb Hk Hs Hc. unfold format_param, run_black_format_str.
  rewrite Hp; simpl. rewrite Hb, Hk; simpl.
  rewrite Hs, (match_equal_first g1 g2 Hc); simpl.
  destruct single; simpl; rewrite <- ?app_assoc; reflexivity.
Qed.

Lemma format_param_keyed_witness :
  @format_param recorded_keyed keyed_param 2 false false
  = Return (py "        mem=4,  # GB\n").
Proof.
  rewrite (format_param_keyed recorded_keyed keyed_param 2 false false
             (py "mem = 4\n") (py "        mem") (py "4\n")
             eq_refl eq_refl eq_refl eq_refl eq_refl).
  reflexivity.
Defined.

(** ** Every rendered parameter ends its line *)

Lemma ends_lf_app (a b : str) :
  (exists r, b = r ++ [LF]) -> exists r, a ++ b = r ++ [LF].
Proof. intros [r ->]. exists (a ++ r). now rewrite app_assoc. Qed.

Ltac ends_lf :=
  first [ exists []; reflexivity
        | apply ends_lf_app; ends_lf
        | apply (ends_lf_app [_]); ends_lf ].

(** Whatever the value, the layout and the engines, a parameter that
    renders ends with a line feed; so does a group in block layout, and a
    group in inline layout that has a parameter. *)
Theorem rendered_text_ends_with_newline (E : Engines) :
  (forall parameter ti inline single r,
      format_param parameter ti inline single = Return r ->
      exists r', r = r' ++ [LF])
  /\ (forall g in_rule out,
        format_params g in_rule = Return out ->
        inline_layout g in_rule = false \/ all_params g <> [] ->
        exists out', out = out' ++ [LF]).
Proof.
  assert (Hparam : forall parameter ti inline single r,
      format_param parameter ti inline single = Return r ->
      exists r', r = r' ++ [LF]).
  { intros parameter ti inline single r. unfold format_param.
    destruct (negb (ast_parse _)); [discriminate|].
    match goal with |- bind ?m _ = _ -> _ => destruct m as [v|e] end;
      cbn [bind]; [|discriminate].
    intros [= <-].
    destruct single; cbv zeta; ends_lf. }
  split; [exact Hparam|].
  intros g in_rule out. rewrite format_params_eq.
  assert (Hloop : forall elems body,
    format_params_loop elems (p_target_indent g) (inline_layout g in_rule)
      (issubclass_SingleParam (p_class g)) [] = Return body ->
    elems <> [] -> exists body', body = body' ++ [LF]).
  { induction elems as [|p elems IH]; intros body; [congruence|].
    cbn [format_params_loop].
    destruct (format_param p _ _ _) as [r|] eqn:Hr; cbn [bind]; [|discriminate].
    rewrite format_params_loop_acc.
    destruct (format_params_loop elems _ _ _ []) as [b|] eqn:Hb; cbn [bind];
      [|discriminate].
    intros [= <-] _.
    destruct elems as [|q elems'].
    - cbn [format_params_loop] in Hb. injection Hb as <-. rewrite app_nil_r.
      exact (Hparam _ _ _ _ _ Hr).
    - destruct (IH b eq_refl ltac:(discriminate)) as (b' & ->).
      exists (r ++ b'). now rewrite app_assoc. }
  destruct (format_params_loop (all_params g) _ _ _ []) as [body|] eqn:Hbody;
    cbn [bind]; [|discriminate].
  intros [= <-] Hcase.
  destruct (all_params g) as [|p elems] eqn:Ha.
  - destruct Hcase as [Hi|Hne]; [|congruence].
    cbn [format_params_loop] in Hbody. injection Hbody as <-.
    unfold params_header. rewrite Hi, app_nil_r.
    exists (str_mul TAB (p_target_indent g - 1) ++ keyword_name g
            ++ py ":" ++ comment g).
    now rewrite <- !app_assoc.
  - destruct (Hloop (p :: elems) body Hbody ltac:(discriminate)) as (b' & ->).
    exists (params_header g in_rule ++ b'). now rewrite app_assoc.
Qed.

(** ** [string_format] on text without triple quotes, and at top level *)

Lemma match_here_triple (s : str) (n : nat) :
  match_here s = Some n ->
  startswith TRIPLE_DQ s = true \/ startswith TRIPLE_SQ s = true.
Proof.
  destruct s as [|a [|b [|c t]]]; try discriminate.
  unfold match_here.
  destruct (((a =? DQ)%N || (a =? SQ)%N) && (a =? b)%N && (a =? c)%N) eqn:H;
    [|discriminate].
  intros _.
  apply andb_true_iff in H as [H Hc]. apply andb_true_iff in H as [Ha Hb].
  apply N.eqb_eq in Hb, Hc. subst b c.
  apply orb_true_iff in Ha as [Ha|Ha]; apply N.eqb_eq in Ha; subst a;
    [left|right]; reflexivity.
Qed.

Lemma finditer_from_no_quotes (s : str) (pos : nat) :
  contains TRIPLE_DQ s = false -> contains TRIPLE_SQ s = false ->
  finditer_from 0 pos s = [].
Proof.
  revert pos; induction s as [|c s IH]; intros pos Hd Hs; [reflexivity|].
  cbn [contains] in Hd, Hs.
  apply orb_false_iff in Hd as [Hd Hd'], Hs as [Hs Hs'].
  cbn [finditer_from].
  destruct (match_here (c :: s)) as [n|] eqn:Hm.
  - apply match_here_triple in Hm as [Hm|Hm]; congruence.
  - now apply IH.
Qed.

Lemma textwrap_indent_empty_prefix (text : str) : textwrap_indent text [] = text.
Proof.
  unfold textwrap_indent.
  rewrite <- (concat_splitlines_keepends text) at 2.
  f_equal. rewrite <- (map_id (splitlines_keepends text)) at 2.
  apply map_ext. intros l. unfold indent_line.
  destruct (is_empty (strip l)); reflexivity.
Qed.

(** A text with no run of three double quotes and no run of three single
    quotes is indented as [textwrap.indent] does: the indent is put before
    every line that is not white space only, and nothing else changes. *)
Theorem string_format_without_triple_quotes (string : str) (ti : Z) :
  contains TRIPLE_DQ string = false ->
  contains TRIPLE_SQ string = false ->
  string_format string ti = textwrap_indent string (str_mul TAB ti).
Proof.
  intros Hd Hs. rewrite string_format_render.
  unfold finditer. rewrite finditer_from_no_quotes by assumption.
  reflexivity.
Qed.

Lemma string_format_without_triple_quotes_witness :
  string_format (py "x = ''\n\n  \nif x:\n    y = \q\q\n") 2
  = py "        x = ''\n\n  \n        if x:\n            y = \q\q\n".
Proof.
  rewrite (string_format_without_triple_quotes
             (py "x = ''\n\n  \nif x:\n    y = \q\q\n") 2 eq_refl eq_refl).
  reflexivity.
Defined.

Lemma in_order_weaken (p p' : nat) (ms : list (nat * nat)) :
  p' <= p -> in_order p ms -> in_order p' ms.
Proof.
  destruct ms as [|[a b] ms]; simpl; [tauto|]. intros Hp (H1 & H2 & H3).
  repeat split; [lia|assumption|assumption].
Qed.

Lemma finditer_from_in_order (s : str) (skip pos : nat) :
  in_order (pos + skip) (finditer_from skip pos s).
Proof.
  revert skip pos; induction s as [|c s IH]; intros skip pos; [exact I|].
  cbn [finditer_from]. destruct skip as [|k].
  - destruct (match_here (c :: s)) as [n|] eqn:Hn.
    + apply match_here_bound in Hn. cbn [in_order].
      repeat split; [lia|lia|].
      replace (pos + n) with (S pos + (n - 1)) by lia. apply IH.
    + apply in_order_weaken with (p := S pos + 0); [lia|apply IH].
  - replace (pos + S k) with (S pos + k) by lia. apply IH.
Qed.

Lemma slice_tile (s : str) (pos a b : nat) :
  pos <= a -> a <= b ->
  slice s pos a ++ slice s a b ++ skipn b s = skipn pos s.
Proof.
  intros Hpa Hab. unfold slice.
  replace (skipn a s) with (skipn (a - pos) (skipn pos s))
    by (rewrite skipn_skipn; f_equal; lia).
  replace (skipn b s) with (skipn (b - a) (skipn (a - pos) (skipn pos s)))
    by (rewrite !skipn_skipn; f_equal; lia).
  now rewrite !firstn_skipn.
Qed.

Lemma expand_tabs_no_tabs (s : str) :
  Forall (fun x => x <> HT) s -> expand_tabs s = s.
Proof.
  unfold expand_tabs. induction 1 as [|x s Hx _ IH]; simpl; [reflexivity|].
  apply N.eqb_neq in Hx. now rewrite Hx, IH.
Qed.

Lemma expand_matches_no_tabs (s : str) (ms : list (nat * nat)) (pos : nat) :
  Forall (fun x => x <> HT) s -> in_order pos ms ->
  expand_matches s ms pos = skipn pos s.
Proof.
  intros Hs. revert pos; induction ms as [|[a b] ms IH]; intros pos; simpl;
    [reflexivity|].
  intros (Hpa & Hab & Hrest).
  rewrite (IH b Hrest), expand_tabs_no_tabs.
  - now apply slice_tile.
  - unfold slice.
    pose proof (Forall_skipn_str (fun x => x <> HT) a s Hs) as H1.
    rewrite <- (firstn_skipn (b - a) (skipn a s)) in H1.
    apply Forall_app in H1. tauto.
Qed.

Lemma render_top_level (s : str) (ti : Z) (ms : list (nat * nat)) (pos : nat) :
  (ti <= 0)%Z -> render s ti ms pos = expand_matches s ms pos.
Proof.
  intros Hti.
  assert (Hu : str_mul TAB ti = []).
  { unfold str_mul. replace (Z.to_nat ti) with 0 by lia. reflexivity. }
  revert pos; induction ms as [|[a b] ms IH]; intros pos; simpl.
  - rewrite Hu. apply textwrap_indent_empty_prefix.
  - rewrite Hu, textwrap_indent_empty_prefix, IH.
    unfold format_match. apply Z.ltb_ge in Hti.
    rewrite Hti, andb_false_r, Hu, replace_tabs. reflexivity.
Qed.

(** At a target indent that is not positive [string_format] only replaces
    the tabs inside the matches of the triple-quote matcher by [TAB]; a
    string without tabs comes back unchanged. *)
Theorem string_format_top_level (string : str) (ti : Z) :
  (ti <= 0)%Z ->
  string_format string ti = expand_matches string (finditer string) 0
  /\ (count_char HT string = 0 -> string_format string ti = string).
Proof.
  intros Hti. rewrite string_format_render, render_top_level by assumption.
  split; [reflexivity|]. intros Hc.
  rewrite expand_matches_no_tabs.
  - reflexivity.
  - now apply count_char_zero_iff.
  - exact (finditer_from_in_order string 0 0).
Qed.

Lemma string_format_top_level_witness :
  string_format (py "x = \q\q\q\n  a\n\q\q\q\ny = '''b''' \n") 0
  = py "x = \q\q\q\n  a\n\q\q\q\ny = '''b''' \n".
Proof.
  assert (H : (0 <= 0)%Z) by lia.
  exact (proj2 (string_format_top_level
                  (py "x = \q\q\q\n  a\n\q\q\q\ny = '''b''' \n") 0 H) eq_refl).
Defined.

(** ** The shape of the matches *)

Lemma find_close_split (q : char) (t : str) (j : nat) :
  find_close q t = Some j ->
  exists rest, t = firstn j t ++ [q; q; q] ++ rest /\ length (firstn j t) = j.
Proof.
  revert j; induction t as [|c t IH]; intros j; [discriminate|].
  cbn [find_close].
  destruct (startswith [q; q; q] (c :: t)) eqn:Hs.
  - intros [= <-]. apply startswith_split in Hs.
    exists (skipn 3 (c :: t)). split; [exact Hs|reflexivity].
  - destruct (find_close q t) as [k|]; [|discriminate].
    intros [= <-]. destruct (IH k eq_refl) as (rest & Ht & Hl).
    exists rest. cbn [firstn length app]. split; [|now rewrite Hl].
    f_equal. exact Ht.
Qed.

Lemma match_here_shape (s : str) (n : nat) :
  match_here s = Some n ->
  exists q body rest,
    (q = DQ \/ q = SQ)
    /\ s = [q; q; q] ++ body ++ [q; q; q] ++ rest
    /\ n = 6 + length body
    /\ find_close q (body ++ [q; q; q] ++ rest) = Some (length body).
Proof.
  destruct s as [|a [|b [|c t]]]; try discriminate.
  unfold match_here.
  destruct (((a =? DQ)%N || (a =? SQ)%N) && (a =? b)%N && (a =? c)%N) eqn:H;
    [|discriminate].
  apply andb_true_iff in H as [H Hc]. apply andb_true_iff in H as [Ha Hb].
  apply N.eqb_eq in Hb, Hc. subst b c.
  destruct (find_close a t) as [j|] eqn:Hj; [|discriminate].
  cbn [option_map]. intros [= <-].
  destruct (find_close_split a t j Hj) as (rest & Ht & Hl).
  exists a, (firstn j t), rest. repeat split.
  - apply orb_true_iff in Ha as [Ha|Ha]; apply N.eqb_eq in Ha; auto.
  - cbn [app]. do 3 f_equal. exact Ht.
  - rewrite Hl. lia.
  - rewrite <- Ht, Hl. exact Hj.
Qed.

Lemma finditer_from_shape (s : str) (skip pos a b : nat) :
  In (a, b) (finditer_from skip pos s) ->
  exists q body rest,
    (q = DQ \/ q = SQ)
    /\ skipn (a - pos) s = [q; q; q] ++ body ++ [q; q; q] ++ rest
    /\ b = a + 6 + length body
    /\ find_close q (body ++ [q; q; q] ++ rest) = Some (length body).
Proof.
  revert skip pos; induction s as [|c s IH]; intros skip pos; [simpl; tauto|].
  cbn [finditer_from].
  assert (Htail : forall k, In (a, b) (finditer_from k (S pos) s) ->
    exists q body rest,
      (q = DQ \/ q = SQ)
      /\ skipn (a - pos) (c :: s) = [q; q; q] ++ body ++ [q; q; q] ++ rest
      /\ b = a + 6 + length body
      /\ find_close q (body ++ [q; q; q] ++ rest) = Some (length body)).
  { intros k Hin. pose proof (finditer_from_bounds _ _ _ _ _ Hin) as [Hge _].
    destruct (IH k (S pos) Hin) as (q & body & rest & Hq & Hs & Hb & Hf).
    exists q, body, rest. repeat split; try assumption.
    replace (a - pos) with (S (a - S pos)) by lia. exact Hs. }
  destruct skip as [|k]; [|apply Htail].
  destruct (match_here (c :: s)) as [n|] eqn:Hn; [|apply Htail].
  cbn [In]. intros [[= <- <-]|Hin]; [|now apply Htail with (k := n - 1)].
  destruct (match_here_shape _ _ Hn) as (q & body & rest & Hq & Hs & Hlen & Hf).
  exists q, body, rest. rewrite Nat.sub_diag. cbn [skipn].
  repeat split; try assumption. lia.
Qed.

Lemma finditer_slice (s : str) (a b : nat) :
  In (a, b) (finditer s) ->
  exists q body rest,
    (q = DQ \/ q = SQ)
    /\ slice s a b = [q; q; q] ++ body ++ [q; q; q]
    /\ skipn b s = rest
    /\ find_close q (body ++ [q; q; q] ++ rest) = Some (length body).
Proof.
  intros Hin. apply finditer_from_shape in Hin
    as (q & body & rest & Hq & Hs & Hb & Hf).
  rewrite Nat.sub_0_r in Hs.
  exists q, body, rest. repeat split; try assumption.
  - unfold slice. rewrite Hs.
    replace (b - a) with (length ([q; q; q] ++ body ++ [q; q; q]))
      by (rewrite !length_app; simpl; lia).
    replace ([q; q; q] ++ body ++ [q; q; q] ++ rest)
      with (([q; q; q] ++ body ++ [q; q; q]) ++ rest)
      by (now rewrite <- !app_assoc).
    rewrite firstn_app, firstn_all, Nat.sub_diag. cbn [firstn].
    now rewrite app_nil_r.
  - replace b with (length ([q; q; q] ++ body ++ [q; q; q]) + a)
      by (rewrite !length_app; simpl; lia).
    rewrite <- skipn_skipn, Hs.
    replace ([q; q; q] ++ body ++ [q; q; q] ++ rest)
      with (([q; q; q] ++ body ++ [q; q; q]) ++ rest)
      by (now rewrite <- !app_assoc).
    rewrite skipn_app, skipn_all, Nat.sub_diag. reflexivity.
Qed.

(** The closing quotes are the first after the opening ones: whatever
    follows them plays no part. *)
Lemma startswith_triple_local (q c : char) (x rest : str) :
  startswith [q; q; q] (c :: x ++ [q; q; q] ++ rest)
  = startswith [q; q; q] (c :: x ++ [q; q; q]).
Proof.
  destruct x as [|d [|e x]]; cbn [app startswith]; rewrite ?andb_true_r;
    reflexivity.
Qed.

Lemma find_close_local (q : char) (body rest : str) :
  find_close q (body ++ [q; q; q] ++ rest) = Some (length body) ->
  find_close q (body ++ [q; q; q]) = Some (length body).
Proof.
  induction body as [|c body IH].
  - intros _. cbn [app find_close startswith]. now rewrite !N.eqb_refl.
  - change ((c :: body) ++ [q; q; q] ++ rest) with (c :: body ++ [q; q; q] ++ rest).
    change ((c :: body) ++ [q; q; q]) with (c :: body ++ [q; q; q]).
    cbn [find_close]. rewrite startswith_triple_local.
    destruct (startswith [q; q; q] (c :: body ++ [q; q; q])); [discriminate|].
    destruct (find_close q (body ++ [q; q; q] ++ rest)) as [k|] eqn:Hk;
      [|discriminate].
    cbn [option_map length]. intros [= ->]. now rewrite IH.
Qed.

(** The matches of the triple-quote matcher follow one another without
    overlap, and each is a text between three double quotes or three single
    quotes and the first later run of the same three quotes. *)
Theorem finditer_matches (string : str) :
  in_order 0 (finditer string)
  /\ (forall a b,
        In (a, b) (finditer string) ->
        exists q body,
          (q = DQ \/ q = SQ)
          /\ slice string a b = [q; q; q] ++ body ++ [q; q; q]
          /\ b = a + 6 + length body
          /\ b <= length string
          /\ find_close q (body ++ [q; q; q]) = Some (length body)).
Proof.
  split; [exact (finditer_from_in_order string 0 0)|].
  intros a b Hin.
  destruct (finditer_slice string a b Hin) as (q & body & rest & Hq & Hs & Hr & Hf).
  pose proof (finditer_from_shape _ _ _ _ _ Hin)
    as (q' & body' & rest' & _ & Hs' & Hb' & _).
  exists q, body. repeat split; try assumption.
  - assert (Hl : length (slice string a b) = 6 + length body)
      by (rewrite Hs, !length_app; simpl; lia).
    assert (Hl' : length (skipn (a - 0) string) = 6 + length body' + length rest')
      by (rewrite Hs', !length_app; simpl; lia).
    assert (Hs2 : slice string a b = [q'; q'; q'] ++ body' ++ [q'; q'; q']).
    { unfold slice. rewrite Nat.sub_0_r in Hs'. rewrite Hs'.
      replace (b - a) with (length ([q'; q'; q'] ++ body' ++ [q'; q'; q']))
        by (rewrite !length_app; simpl; lia).
      replace ([q'; q'; q'] ++ body' ++ [q'; q'; q'] ++ rest')
        with (([q'; q'; q'] ++ body' ++ [q'; q'; q']) ++ rest')
        by (now rewrite <- !app_assoc).
      rewrite firstn_app, firstn_all, Nat.sub_diag. cbn [firstn].
      now rewrite app_nil_r. }
    rewrite Hs2, !length_app in Hl. simpl in Hl. lia.
  - pose proof (finditer_from_shape _ _ _ _ _ Hin)
      as (q2 & body2 & rest2 & _ & Hs2 & Hb2 & _).
    rewrite Nat.sub_0_r in Hs2.
    assert (Hlen : length (skipn a string) = length string - a)
      by apply length_skipn.
    rewrite Hs2, !length_app in Hlen. simpl in Hlen. lia.
  - now apply find_close_local with (rest := rest).
Qed.

(** ** [textwrap.dedent] line by line *)

Lemma startswith_refl (s : str) : startswith s s = true.
Proof. rewrite <- (app_nil_r s) at 2. apply startswith_app. Qed.

Lemma startswith_trans (a b c : str) :
  startswith a b = true -> startswith b c = true -> startswith a c = true.
Proof.
  intros Hab Hbc. apply startswith_split in Hab, Hbc.
  rewrite Hbc, Hab, <- app_assoc. apply startswith_app.
Qed.

Lemma startswith_firstn (k : nat) (s : str) : startswith (firstn k s) s = true.
Proof. rewrite <- (firstn_skipn k s) at 2. apply startswith_app. Qed.

Lemma first_diff_common (m i : str) (k : nat) :
  first_diff m i = Some k -> firstn k m = firstn k i.
Proof.
  revert i k; induction m as [|x m IH]; intros [|y i] k; try discriminate.
  cbn [first_diff]. destruct (N.eqb_spec x y) as [->|Hne].
  - destruct (first_diff m i) as [j|] eqn:Hj; [|discriminate].
    intros [= <-]. cbn [firstn]. f_equal. now apply IH.
  - intros [= <-]. reflexivity.
Qed.

Lemma first_diff_none (m i : str) :
  first_diff m i = None -> startswith m i = true \/ startswith i m = true.
Proof.
  revert i; induction m as [|x m IH]; intros [|y i]; cbn [first_diff startswith];
    auto.
  destruct (N.eqb_spec x y) as [->|Hne]; [|discriminate].
  destruct (first_diff m i) eqn:Hd; [discriminate|]. intros _.
  rewrite N.eqb_refl. cbn [andb]. now apply IH.
Qed.

Lemma margin_step_prefix (m i : str) :
  exists m', margin_step (Some m) i = Some m'
             /\ startswith m' m = true /\ startswith m' i = true.
Proof.
  cbn [margin_step].
  destruct (startswith m i) eqn:Hmi.
  - exists m. auto using startswith_refl.
  - destruct (startswith i m) eqn:Him.
    + exists i. auto using startswith_refl.
    + destruct (first_diff m i) as [k|] eqn:Hd.
      * exists (firstn k m). repeat split; [apply startswith_firstn|].
        rewrite (first_diff_common _ _ _ Hd). apply startswith_firstn.
      * apply first_diff_none in Hd as [H|H]; congruence.
Qed.

Lemma fold_margin_prefix (indents : list str) (m : str) :
  exists m', fold_left margin_step indents (Some m) = Some m'
             /\ startswith m' m = true
             /\ Forall (fun i => startswith m' i = true) indents.
Proof.
  revert m; induction indents as [|i indents IH]; intros m.
  - exists m. repeat split; [apply startswith_refl|constructor].
  - destruct (margin_step_prefix m i) as (m1 & H1 & Hm & Hi).
    destruct (IH m1) as (m' & H' & Hm1 & Hall).
    exists m'. cbn [fold_left]. rewrite H1. repeat split; try assumption.
    + eapply startswith_trans; eassumption.
    + constructor; [eapply startswith_trans; eassumption|assumption].
Qed.

Lemma fold_margin_spec (indents : list str) :
  match fold_left margin_step indents None with
  | None => indents = []
  | Some m => Forall (fun i => startswith m i = true) indents
  end.
Proof.
  destruct indents as [|i indents]; [reflexivity|].
  cbn [fold_left margin_step].
  destruct (fold_margin_prefix indents i) as (m' & H' & Hi & Hall).
  rewrite H'. constructor; assumption.
Qed.

Lemma takewhile_dropwhile (f : char -> bool) (s : str) :
  takewhile f s ++ dropwhile f s = s.
Proof.
  induction s as [|c s IH]; [reflexivity|]. cbn [takewhile dropwhile].
  destruct (f c); [cbn [app]; now rewrite IH|reflexivity].
Qed.

Lemma dropwhile_nil_iff (f : char -> bool) (s : str) :
  dropwhile f s = [] <-> forallb f s = true.
Proof.
  induction s as [|c s IH]; cbn [dropwhile forallb]; [tauto|].
  destruct (f c); cbn [andb]; [exact IH|]. split; discriminate.
Qed.

Lemma not_blank_margin (margin l : str) :
  forallb is_blank l = false ->
  Forall (fun i => startswith margin i = true) (leading_whitespace l) ->
  l = margin ++ skipn (length margin) l /\ startswith margin l = true.
Proof.
  intros Hb Hall. unfold leading_whitespace in Hall.
  destruct (dropwhile is_blank l) as [|c r] eqn:Hd.
  - apply dropwhile_nil_iff in Hd. congruence.
  - inversion Hall as [|? ? Hm _]; subst.
    assert (Hl : startswith margin l = true).
    { eapply startswith_trans; [exact Hm|].
      rewrite <- (takewhile_dropwhile is_blank l) at 2. apply startswith_app. }
    split; [now apply startswith_split|exact Hl].
Qed.

Lemma split_lf_line (l : str) :
  Forall (fun c => c <> LF) l -> split_lf l = [l].
Proof.
  induction 1 as [|c l Hc _ IH]; [reflexivity|].
  cbn [split_lf]. apply N.eqb_neq in Hc. now rewrite Hc, IH.
Qed.

Lemma split_lf_app_lf (l r : str) :
  Forall (fun c => c <> LF) l -> split_lf (l ++ LF :: r) = l :: split_lf r.
Proof.
  induction 1 as [|c l Hc _ IH]; cbn [app split_lf].
  - reflexivity.
  - apply N.eqb_neq in Hc. now rewrite Hc, IH.
Qed.

Lemma split_lf_join (ls : list str) :
  ls <> [] -> Forall (Forall (fun c => c <> LF)) ls ->
  split_lf (join [LF] ls) = ls.
Proof.
  induction ls as [|l ls IH]; intros Hne Hall; [congruence|].
  inversion Hall as [|? ? Hl Hls]; subst.
  destruct ls as [|l' ls'].
  - now apply split_lf_line.
  - change (join [LF] (l :: l' :: ls')) with (l ++ LF :: join [LF] (l' :: ls')).
    rewrite split_lf_app_lf by assumption.
    f_equal. apply IH; [discriminate|assumption].
Qed.

Lemma split_lf_no_lf (s : str) :
  Forall (Forall (fun c => c <> LF)) (split_lf s) /\ split_lf s <> [].
Proof.
  induction s as [|c s [IH Hne]]; cbn [split_lf].
  - split; [repeat constructor|discriminate].
  - destruct (N.eqb_spec c LF) as [->|Hc].
    + split; [constructor; [constructor|exact IH]|discriminate].
    + destruct (split_lf s) as [|l ls]; [congruence|].
      inversion IH; subst. split; [|discriminate].
      constructor; [constructor; assumption|assumption].
Qed.

Lemma Forall2_map_self {A B : Type} (R : A -> B -> Prop) (f : A -> B) (l : list A) :
  Forall (fun x => R x (f x)) l -> Forall2 R l (map f l).
Proof. induction 1; constructor; assumption. Qed.

(** [textwrap.dedent] works on the lines that line feeds delimit and keeps
    their number: for one margin of spaces and tabs, every line that is
    not blank loses that margin, and every blank line becomes empty. *)
Lemma textwrap_dedent_lines (text : str) :
  exists margin,
    Forall2 (dedented_line margin) (split_lf text)
      (split_lf (textwrap_dedent text)).
Proof.
  unfold textwrap_dedent.
  set (lines := map blank_out (split_lf text)).
  destruct (split_lf_no_lf text) as [Hnolf Hne].
  assert (Hlines_no_lf : Forall (Forall (fun c => c <> LF)) lines).
  { apply Forall_map. eapply Forall_impl; [|exact Hnolf].
    intros l Hl. unfold blank_out. destruct (forallb is_blank l);
      [constructor|assumption]. }
  assert (Hlines_ne : lines <> []).
  { subst lines. destruct (split_lf text); [congruence|discriminate]. }
  pose proof (fold_margin_spec (flat_map leading_whitespace lines)) as Hm.
  destruct (fold_left margin_step (flat_map leading_whitespace lines) None)
    as [[|c m]|].
  - exists []. rewrite split_lf_join by assumption.
    apply Forall2_map_self. apply Forall_forall. intros l _.
    unfold dedented_line, blank_out. destruct (forallb is_blank l); reflexivity.
  - exists (c :: m). rewrite split_lf_join.
    + subst lines. rewrite map_map. apply Forall2_map_self.
      apply Forall_forall. intros l Hin.
      unfold dedented_line, blank_out.
      destruct (forallb is_blank l) eqn:Hb.
      * reflexivity.
      * assert (Hl : Forall (fun i => startswith (c :: m) i = true)
                       (leading_whitespace l)).
        { apply Forall_forall. intros i Hi.
          rewrite Forall_forall in Hm. apply Hm.
          apply in_flat_map. exists l. split; [|exact Hi].
          apply in_map_iff. exists l. split; [|exact Hin].
          unfold blank_out. now rewrite Hb. }
        destruct (not_blank_margin (c :: m) l Hb Hl) as [Heq Hs].
        unfold remove_margin. rewrite Hs. exact Heq.
    + destruct lines; [congruence|discriminate].
    + apply Forall_map. eapply Forall_impl; [|exact Hlines_no_lf].
      intros l Hl. unfold remove_margin.
      destruct (startswith (c :: m) l); [|assumption].
      now apply Forall_skipn_str.
  - exists []. rewrite split_lf_join by assumption.
    apply Forall2_map_self. apply Forall_forall. intros l _.
    unfold dedented_line, blank_out. destruct (forallb is_blank l); reflexivity.
Qed.

(** ** Multi-line matches at a positive indent *)

Lemma startswith_triple_expand (c : char) (body rest : str) :
  (c =? HT)%N = false ->
  startswith TRIPLE_DQ (c :: body ++ TRIPLE_DQ ++ rest) = false ->
  startswith TRIPLE_DQ (c :: expand_tabs body ++ TRIPLE_DQ) = false.
Proof.
  intros Hc. unfold expand_tabs, TRIPLE_DQ.
  destruct body as [|d [|e x]]; cbn [flat_map app startswith].
  - rewrite ?andb_true_r. intros H; exact H.
  - destruct (d =? HT)%N eqn:Hd; cbn [app startswith TAB].
    + intros _. destruct (DQ =? c)%N; reflexivity.
    + rewrite ?andb_true_r. intros H; exact H.
  - destruct (d =? HT)%N eqn:Hd; cbn [app startswith TAB].
    + intros _. destruct (DQ =? c)%N; reflexivity.
    + destruct (e =? HT)%N eqn:He; cbn [app startswith TAB].
      * intros _. destruct (DQ =? c)%N, (DQ =? d)%N; reflexivity.
      * rewrite ?andb_true_r. intros H; exact H.
Qed.

Lemma replace_triple_expand (body rest : str) :
  find_close DQ (body ++ TRIPLE_DQ ++ rest) = Some (length body) ->
  replace_from TRIPLE_DQ [] 0 (expand_tabs body ++ TRIPLE_DQ) = expand_tabs body.
Proof.
  induction body as [|c body IH]; [reflexivity|].
  change ((c :: body) ++ TRIPLE_DQ ++ rest) with (c :: body ++ TRIPLE_DQ ++ rest).
  cbn [find_close]. fold TRIPLE_DQ.
  destruct (startswith TRIPLE_DQ (c :: body ++ TRIPLE_DQ ++ rest)) eqn:Hs;
    [discriminate|].
  destruct (find_close DQ (body ++ TRIPLE_DQ ++ rest)) as [k|] eqn:Hk;
    [|discriminate].
  cbn [option_map length]. intros [= ->]. specialize (IH eq_refl).
  unfold expand_tabs in *. cbn [flat_map].
  destruct (c =? HT)%N eqn:Hc.
  - cbn [TAB app replace_from startswith TRIPLE_DQ].
    change (DQ =? SP)%N with false. cbn [andb].
    fold TRIPLE_DQ. now rewrite IH.
  - cbn [app replace_from].
    pose proof (startswith_triple_expand c body rest Hc Hs) as Hs'.
    unfold expand_tabs in Hs'. rewrite Hs'. now rewrite IH.
Qed.

Lemma replace_triple_open (x : str) :
  replace TRIPLE_DQ [] (TRIPLE_DQ ++ x) = replace_from TRIPLE_DQ [] 0 x.
Proof. reflexivity. Qed.

Lemma expand_tabs_app (a b : str) :
  expand_tabs (a ++ b) = expand_tabs a ++ expand_tabs b.
Proof. unfold expand_tabs. apply flat_map_app. Qed.

Lemma format_match_double_quoted (ti : Z) (body rest : str) :
  find_close DQ (body ++ TRIPLE_DQ ++ rest) = Some (length body) ->
  0 < count_char LF body -> (0 < ti)%Z ->
  format_match ti (TRIPLE_DQ ++ body ++ TRIPLE_DQ) =
  textwrap_indent
    (TRIPLE_DQ ++ textwrap_dedent (expand_tabs body) ++ TRIPLE_DQ)
    (str_mul TAB ti).
Proof.
  intros Hf Hn Hti. unfold format_match.
  rewrite replace_tabs, !expand_tabs_app.
  change (expand_tabs TRIPLE_DQ) with TRIPLE_DQ.
  assert (Hlf : 0 < count_char LF (TRIPLE_DQ ++ expand_tabs body ++ TRIPLE_DQ)).
  { rewrite !count_char_app, count_expand_tabs by discriminate. lia. }
  apply Nat.ltb_lt in Hlf. apply Z.ltb_lt in Hti. rewrite Hlf, Hti.
  cbn [andb].
  rewrite replace_triple_open, (replace_triple_expand body rest Hf).
  reflexivity.
Qed.

(** A match between double quotes that spans several lines, at a positive
    target indent: its tabs are replaced by [TAB], the text between the
    quotes is dedented as one unit (one margin is taken off every line that
    is not blank, the blank lines become empty), the quotes are put back and
    the whole is indented by the target indent. *)
Theorem string_format_multiline_literal (string : str) (ti : Z) (a b : nat) :
  In (a, b) (finditer string) ->
  startswith TRIPLE_DQ (slice string a b) = true ->
  0 < count_char LF (slice string a b) ->
  (0 < ti)%Z ->
  exists body margin,
    slice string a b = TRIPLE_DQ ++ body ++ TRIPLE_DQ
    /\ (exists pre post,
          string_format string ti =
          pre ++ textwrap_indent
                   (TRIPLE_DQ ++ textwrap_dedent (expand_tabs body) ++ TRIPLE_DQ)
                   (str_mul TAB ti) ++ post)
    /\ Forall2 (dedented_line margin) (split_lf (expand_tabs body))
         (split_lf (textwrap_dedent (expand_tabs body))).
Proof.
  intros Hin Hs Hn Hti.
  destruct (finditer_slice string a b Hin) as (q & body & rest & Hq & Hm & _ & Hf).
  assert (q = DQ) as ->.
  { destruct Hq as [->| ->]; [reflexivity|]. rewrite Hm in Hs. discriminate. }
  fold TRIPLE_DQ in Hm, Hf.
  destruct (textwrap_dedent_lines (expand_tabs body)) as (margin & Hd).
  exists body, margin. split; [exact Hm|split; [|exact Hd]].
  assert (Hb : 0 < count_char LF body).
  { rewrite Hm, !count_char_app in Hn. unfold count_char in Hn at 1 3.
    simpl in Hn. lia. }
  rewrite <- (format_match_double_quoted ti body rest Hf Hb Hti), <- Hm.
  rewrite string_format_render. now apply render_match.
Qed.

Lemma string_format_multiline_literal_witness :
  In (4, 25) (finditer (py "x = \q\q\q\n\t  a\n\n\t    b\n\t\q\q\q\n"))
  /\ string_format (py "x = \q\q\q\n\t  a\n\n\t    b\n\t\q\q\q\n") 1
     = py "    x =     \q\q\q\n    a\n\n      b\n    \q\q\q\n".
Proof.
  assert (Hin : In (4, 25) (finditer (py "x = \q\q\q\n\t  a\n\n\t    b\n\t\q\q\q\n")))
    by (left; reflexivity).
  split; [exact Hin|].
  destruct (string_format_multiline_literal
              (py "x = \q\q\q\n\t  a\n\n\t    b\n\t\q\q\q\n") 1 4 25
              Hin eq_refl ltac:(vm_compute; lia) ltac:(lia))
    as (body & margin & _ & _ & _).
  reflexivity.
Defined.


(** ** The errors of [format_param] *)

(** [format_param] fails in two ways only: with [InvalidParameterSyntax],
    carrying the line number and the value, when the value does not parse
    as the argument of a call; with [AttributeError] when the value parses,
    the parameter has a key and the formatted text has no equals sign
    between two spaces.  A value that the code formatter rejects never
    makes it fail. *)
Theorem format_param_errors (E : Engines) (parameter : Param) (ti : Z)
    (inline single : bool) (e : exn) :
  format_param parameter ti inline single = Raise e ->
  (ast_parse (py "param(" ++ param_str parameter ++ py ")") = false
   /\ e = InvalidParameterSyntax (line_nb parameter ++ param_str parameter))
  \/ (ast_parse (py "param(" ++ param_str parameter ++ py ")") = true
      /\ has_a_key parameter = true
      /\ e = AttributeError
      /\ exists fmted,
           black_format_str
             (if inline then replace [LF] [] (param_str parameter)
              else param_str parameter) = Formatted fmted
           /\ match_equal (string_format fmted (if inline then 0%Z else ti)) = None).
Proof.
  unfold format_param, run_black_format_str.
  destruct (ast_parse _) eqn:Hp; cbn [negb].
  - destruct (black_format_str _) as [fmted|msg] eqn:Hb; cbn [bind];
      [|discriminate].
    destruct (has_a_key parameter) eqn:Hk; [|discriminate].
    destruct (match_equal _) as [[g1 g2]|] eqn:Hm; cbn [bind]; [discriminate|].
    intros [= <-]. right. repeat split. exists fmted. split; [reflexivity|exact Hm].
  - intros [= <-]. left. split; reflexivity.
Qed.

Lemma format_param_errors_witness :
  @format_param recorded def_paren 2 false false
    = Raise (InvalidParameterSyntax (py "L3: def("))
  /\ @ast_parse recorded (py "param(" ++ param_str def_paren ++ py ")") = false.
Proof.
  assert (H : @format_param recorded def_paren 2 false false
              = Raise (InvalidParameterSyntax (py "L3: def("))) by reflexivity.
  split; [exact H|].
  destruct (format_param_errors recorded def_paren 2 false false _ H)
    as [[Hp _]|(_ & _ & He & _)]; [exact Hp|discriminate He].
Defined.

(** ** A flush of code *)

(** A flush of a buffer of code that [black] formats: at a positive target
    indent the formatted text is indented by [textwrap.indent], followed by
    one more line feed when the buffer ended with a blank line, and
    appended to the result, the held comments staying held; at target
    indent 0 the formatted text (with the same added line feed) is
    committed as a top-level block.  The buffer is cleared and [first] is
    false afterwards unless the commit is a top-level block of comment
    lines only. *)
Theorem flush_buffer_formatted (E : Engines) (final_flush : bool)
    (self : Formatter) (fmted : str) :
  blank_buffer self = false ->
  black_format_str (buffer self) = Formatted fmted ->
  let tail := if endswith [LF; LF] (buffer self) then [LF] else [] in
  exists self',
    flush_buffer false final_flush self = Return self'
    /\ buffer self' = []
    /\ ((0 < target_indent self)%Z ->
        result self' =
          result self
          ++ textwrap_indent fmted (str_mul TAB (target_indent self)) ++ tail
        /\ lagging_comments self' = lagging_comments self
        /\ first self' = false)
    /\ (target_indent self = 0%Z ->
        self' = set_buffer [] (add_newlines 0 (fmted ++ tail) final_flush self)).
Proof.
  intros Hb Hf tail. subst tail. unfold blank_buffer in Hb.
  unfold flush_buffer, run_black_format_str. rewrite Hb, Hf. cbn [negb bind].
  generalize (endswith [LF; LF] (buffer self)) as tn. intros tn.
  eexists. split; [reflexivity|]. split; [reflexivity|]. split.
  - intros Hpos. apply Z.ltb_lt in Hpos as Hpos'. rewrite Hpos'.
    rewrite add_newlines_nested by lia.
    cbn [result lagging_comments first set_buffer].
    destruct tn; rewrite <- ?app_assoc, ?app_nil_r; repeat split.
  - intros H0. rewrite H0. cbn [Z.ltb Z.compare].
    destruct tn; rewrite ?app_nil_r; reflexivity.
Qed.

Lemma flush_buffer_formatted_witness :
  blank_buffer (code_block_state (py "x = 1\n# c\n") 1) = false
  /\ @black_format_str recorded (buffer (code_block_state (py "x = 1\n# c\n") 1))
     = Formatted (py "x = 1\n# c\n")
  /\ exists self',
       @flush_buffer recorded false false (code_block_state (py "x = 1\n# c\n") 1)
       = Return self'
       /\ result self' = py "    x = 1\n    # c\n".
Proof.
  assert (Hb : blank_buffer (code_block_state (py "x = 1\n# c\n") 1) = false)
    by reflexivity.
  assert (Hf : @black_format_str recorded
                 (buffer (code_block_state (py "x = 1\n# c\n") 1))
               = Formatted (py "x = 1\n# c\n")) by reflexivity.
  split; [exact Hb|split; [exact Hf|]].
  destruct (flush_buffer_formatted recorded false
              (code_block_state (py "x = 1\n# c\n") 1) (py "x = 1\n# c\n") Hb Hf)
    as (self' & Hfl & _ & Hpos & _).
  exists self'. split; [exact Hfl|].
  destruct (Hpos ltac:(reflexivity)) as (Hr & _). rewrite Hr. reflexivity.
Defined.

(** ** [process_keyword_param] *)

(** A parameter group that renders is written after a commit of the empty
    text at the indent of its keyword (its target indent minus one): at
    indent 0 the separator and the held comments come first, at any other
    indent the rendering is appended as it is; [first] is false afterwards.
    A group that fails to render makes [process_keyword_param] fail with the
    same error. *)
Theorem process_keyword_param_writes (E : Engines) (g : ParameterSyntax)
    (self : Formatter) :
  match format_params g (issubclass_SnakeRule (incident_vocab g)) with
  | Raise e => process_keyword_param g self = Raise e
  | Return r =>
      exists self',
        process_keyword_param g self = Return self'
        /\ first self' = false
        /\ buffer self' = buffer self
        /\ (if (p_target_indent g - 1 =? 0)%Z
            then result self' =
                   result self ++ (if first self then [] else [LF; LF])
                   ++ lagging_comments self ++ r
                 /\ lagging_comments self' = []
            else result self' = result self ++ r
                 /\ lagging_comments self' = lagging_comments self)
  end.
Proof.
  unfold process_keyword_param.
  destruct (format_params g _) as [r|e]; cbn [bind]; [|reflexivity].
  eexists. split; [reflexivity|].
  destruct (Z.eqb_spec (p_target_indent g - 1) 0) as [H0|Hne].
  - rewrite H0, add_newlines_top_level; simpl.
    rewrite andb_false_r, !app_nil_r, <- !app_assoc. repeat split.
  - rewrite add_newlines_nested by assumption; simpl.
    rewrite app_nil_r. repeat split.
Qed.

(** ** A literal after text without quotes is found *)

Lemma match_here_not_quote (c : char) (t : str) :
  not_quote c -> match_here (c :: t) = None.
Proof.
  intros [Hd Hs]. destruct t as [|b [|d t]]; try reflexivity.
  unfold match_here.
  apply N.eqb_neq in Hd, Hs. rewrite Hd, Hs. reflexivity.
Qed.

Lemma finditer_from_skip (x y : str) (pos : nat) :
  finditer_from (length x) pos (x ++ y) = finditer_from 0 (pos + length x) y.
Proof.
  revert pos; induction x as [|c x IH]; intros pos.
  - cbn [length app]. now rewrite Nat.add_0_r.
  - cbn [length app finditer_from]. rewrite IH. f_equal. lia.
Qed.

Lemma finditer_from_quote_free (pre y : str) (pos : nat) :
  Forall not_quote pre ->
  finditer_from 0 pos (pre ++ y) = finditer_from 0 (pos + length pre) y.
Proof.
  intros H. revert pos; induction H as [|c pre Hc _ IH]; intros pos.
  - cbn [length app]. now rewrite Nat.add_0_r.
  - cbn [length app finditer_from].
    change (c :: pre ++ y) with (c :: (pre ++ y)).
    rewrite (match_here_not_quote c (pre ++ y) Hc), IH. f_equal. lia.
Qed.

Lemma find_close_extend (q : char) (body rest : str) :
  find_close q (body ++ [q; q; q]) = Some (length body) ->
  find_close q (body ++ [q; q; q] ++ rest) = Some (length body).
Proof.
  induction body as [|c body IH].
  - intros _. cbn [app find_close startswith]. now rewrite !N.eqb_refl.
  - change ((c :: body) ++ [q; q; q] ++ rest) with (c :: body ++ [q; q; q] ++ rest).
    change ((c :: body) ++ [q; q; q]) with (c :: body ++ [q; q; q]).
    cbn [find_close]. rewrite startswith_triple_local.
    destruct (startswith [q; q; q] (c :: body ++ [q; q; q])); [discriminate|].
    destruct (find_close q (body ++ [q; q; q])) as [k|] eqn:Hk; [|discriminate].
    cbn [option_map length]. intros [= ->]. now rewrite IH.
Qed.

Lemma match_here_literal (q : char) (body rest : str) :
  q = DQ \/ q = SQ ->
  find_close q (body ++ [q; q; q] ++ rest) = Some (length body) ->
  match_here ([q; q; q] ++ body ++ [q; q; q] ++ rest) = Some (6 + length body).
Proof.
  intros Hq Hf.
  change ([q; q; q] ++ body ++ [q; q; q] ++ rest)
    with (q :: q :: q :: (body ++ [q; q; q] ++ rest)).
  unfold match_here. rewrite Hf, !N.eqb_refl.
  assert (Hqq : ((q =? DQ)%N || (q =? SQ)%N) = true).
  { destruct Hq as [-> | ->]; reflexivity. }
  rewrite Hqq. cbn [andb option_map]. f_equal. lia.
Qed.

Lemma finditer_from_cons (c : char) (t : str) (pos : nat) :
  finditer_from 0 pos (c :: t) =
  match match_here (c :: t) with
  | Some n => (pos, pos + n) :: finditer_from (n - 1) (S pos) t
  | None => finditer_from 0 (S pos) t
  end.
Proof. reflexivity. Qed.

Lemma finditer_literal (q : char) (pre body post : str) :
  Forall not_quote pre ->
  q = DQ \/ q = SQ ->
  find_close q (body ++ [q; q; q]) = Some (length body) ->
  finditer (pre ++ [q; q; q] ++ body ++ [q; q; q] ++ post) =
  (length pre, length pre + 6 + length body)
  :: finditer_from 0 (length pre + 6 + length body) post.
Proof.
  intros Hpre Hq Hf. unfold finditer.
  rewrite finditer_from_quote_free by assumption. cbn [Nat.add].
  pose proof (match_here_literal q body post Hq
                (find_close_extend q body post Hf)) as Hm.
  assert (Heq : [q; q; q] ++ body ++ [q; q; q] ++ post
                = q :: ((q :: q :: body ++ [q; q; q]) ++ post))
    by (cbn [app]; rewrite <- app_assoc; reflexivity).
  rewrite Heq in Hm |- *.
  rewrite finditer_from_cons, Hm.
  replace (6 + length body - 1) with (length (q :: q :: body ++ [q; q; q]))
    by (cbn [length]; rewrite length_app; cbn [length]; lia).
  rewrite finditer_from_skip.
  cbn [length]. rewrite length_app. cbn [length].
  f_equal; [f_equal; lia|f_equal; lia].
Qed.

Lemma slice_prefix (x y : str) : slice (x ++ y) 0 (length x) = x.
Proof.
  unfold slice. cbn [skipn]. rewrite Nat.sub_0_r, firstn_app, firstn_all,
    Nat.sub_diag. cbn [firstn]. apply app_nil_r.
Qed.

Lemma slice_middle (x m y : str) :
  slice (x ++ m ++ y) (length x) (length x + length m) = m.
Proof.
  unfold slice. rewrite skipn_app, skipn_all, Nat.sub_diag. cbn [skipn app].
  replace (length x + length m - length x) with (length m) by lia.
  rewrite firstn_app, firstn_all, Nat.sub_diag. cbn [firstn]. apply app_nil_r.
Qed.

Lemma string_format_literal (q : char) (pre body post : str) (ti : Z) :
  Forall not_quote pre ->
  q = DQ \/ q = SQ ->
  find_close q (body ++ [q; q; q]) = Some (length body) ->
  let string := pre ++ [q; q; q] ++ body ++ [q; q; q] ++ post in
  let m_end := length pre + 6 + length body in
  In (length pre, m_end) (finditer string)
  /\ slice string (length pre) m_end = [q; q; q] ++ body ++ [q; q; q]
  /\ string_format string ti =
     textwrap_indent pre (str_mul TAB ti)
     ++ format_match ti ([q; q; q] ++ body ++ [q; q; q])
     ++ render string ti (finditer_from 0 m_end post) m_end.
Proof.
  intros Hpre Hq Hf string m_end.
  pose proof (finditer_literal q pre body post Hpre Hq Hf) as Hfi.
  fold string in Hfi. fold m_end in Hfi.
  assert (Hs : slice string (length pre) m_end = [q; q; q] ++ body ++ [q; q; q]).
  { subst string m_end.
    replace (pre ++ [q; q; q] ++ body ++ [q; q; q] ++ post)
      with (pre ++ ([q; q; q] ++ body ++ [q; q; q]) ++ post)
      by (now rewrite <- !app_assoc).
    replace (length pre + 6 + length body)
      with (length pre + length ([q; q; q] ++ body ++ [q; q; q]))
      by (rewrite !length_app; cbn [length]; lia).
    apply slice_middle. }
  split; [rewrite Hfi; left; reflexivity|]. split; [exact Hs|].
  rewrite string_format_render, Hfi. cbn [render]. rewrite Hs.
  subst string. rewrite slice_prefix. reflexivity.
Qed.

(** ** [textwrap.indent] keeps the lines *)

Lemma textwrap_indent_lines (text prefix : str) :
  concat (splitlines_keepends text) = text
  /\ exists lines',
       textwrap_indent text prefix = concat lines'
       /\ Forall2 (kept_line prefix) (splitlines_keepends text) lines'.
Proof.
  split; [apply concat_splitlines_keepends|].
  exists (map (indent_line prefix) (splitlines_keepends text)).
  split; [reflexivity|].
  apply Forall2_map_self. apply Forall_forall. intros l _.
  unfold kept_line, indent_line. destruct (is_empty (strip l)); auto.
Qed.

(** * The separation of top-level blocks *)







(** * The final flush and the held comments *)

(** C7, as the code has it.  On the final flush at target indent 0: a
    pending text that is empty or white space only is appended as it is and
    the held comments stay held, they are not committed; a pending text of
    code that the formatter accepts is committed as a top-level block, the
    comments held before coming first and the trailing comments of the block
    itself being written right after it. *)
Theorem C7_final_flush_commits_held_comments (E : Engines) (self : Formatter) :
  target_indent self = 0%Z ->
  (blank_buffer self = true ->
   exists self',
     flush_buffer false true self = Return self'
     /\ result self' = result self ++ buffer self
     /\ lagging_comments self' = lagging_comments self)
  /\ (forall fmted,
        blank_buffer self = false ->
        black_format_str (buffer self) = Formatted fmted ->
        let ls :=
          splitlines
            (fmted ++ (if endswith [LF; LF] (buffer self) then [LF] else [])) in
        exists self',
          flush_buffer false true self = Return self'
          /\ result self' =
             result self ++ (if first self then [] else [LF; LF])
             ++ lagging_comments self ++ committed_text ls ++ held_text ls).
Proof.
  intros Hti. split.
  - intros Hb. unfold blank_buffer in Hb. unfold flush_buffer. rewrite Hb.
    eexists. repeat split.
  - intros fmted Hb Hf ls. subst ls. unfold blank_buffer in Hb.
    unfold flush_buffer, run_black_format_str. rewrite Hb, Hf, Hti.
    cbn [negb bind Z.ltb Z.compare].
    generalize (endswith [LF; LF] (buffer self)) as tn. intros tn.
    eexists. split; [reflexivity|].
    cbn [result set_buffer]. rewrite add_newlines_top_level. cbn [result].
    destruct tn; rewrite ?app_nil_r; reflexivity.
Qed.

Lemma C7_final_flush_commits_held_comments_witness :
  target_indent held_comment_state = 0%Z
  /\ lagging_comments held_comment_state = py "# c\n"
  /\ exists self',
       @flush_buffer recorded false true held_comment_state = Return self'
       /\ result self' = py "x = 1\n\n\n# c\nx = 1\n# c\n".
Proof.
  assert (H : target_indent held_comment_state = 0%Z) by reflexivity.
  split; [exact H|split; [reflexivity|]].
  destruct (C7_final_flush_commits_held_comments recorded held_comment_state H)
    as (_ & Hcode).
  destruct (Hcode (py "x = 1\n# c\n") eq_refl eq_refl) as (self' & Hf & Hr).
  exists self'. split; [exact Hf|]. rewrite Hr. reflexivity.
Defined.

(** C7 as stated fails: after a top-level block that holds a comment back,
    a final flush of an empty pending text, or of a blank one, leaves the
    comment held and out of the output. *)
Lemma C7_blank_final_flush_leaves_comments_held :
  (exists s,
      @run recorded
        [PlainText (py "x = 1\n# c\n") 0 false false; PlainText [] 0 false true]
        init = Return s
      /\ result s = py "x = 1\n" /\ lagging_comments s = py "# c\n")
  /\ (exists s,
        @run recorded
          [PlainText (py "x = 1\n# c\n") 0 false false;
           PlainText (py "\n") 0 false true]
          init = Return s
        /\ result s = py "x = 1\n\n" /\ lagging_comments s = py "# c\n").
Proof. split; eexists; repeat split. Qed.

(** * Multi-line matches between single quotes *)

Lemma replace_without_double_quote (x : str) :
  Forall (fun c => c <> DQ) x -> replace_from TRIPLE_DQ [] 0 x = x.
Proof.
  induction 1 as [|c x Hc _ IH]; [reflexivity|].
  cbn [replace_from startswith TRIPLE_DQ].
  assert (H : (DQ =? c)%N = false) by (apply N.eqb_neq; congruence).
  rewrite H. cbn [andb]. fold TRIPLE_DQ. now rewrite IH.
Qed.

Lemma expand_tabs_without_double_quote (x : str) :
  Forall (fun c => c <> DQ) x -> Forall (fun c => c <> DQ) (expand_tabs x).
Proof.
  unfold expand_tabs. induction 1 as [|c x Hc _ IH]; cbn [flat_map];
    [constructor|].
  apply Forall_app. split; [|exact IH].
  destruct (c =? HT)%N; repeat constructor; try discriminate; assumption.
Qed.

Lemma split_lf_cons (c : char) (t : str) :
  c <> LF ->
  exists l ls, split_lf t = l :: ls /\ split_lf (c :: t) = (c :: l) :: ls.
Proof.
  intros Hc. destruct (split_lf_no_lf t) as [_ Hne].
  cbn [split_lf]. apply N.eqb_neq in Hc. rewrite Hc.
  destruct (split_lf t) as [|l ls]; [congruence|]. eauto.
Qed.

Lemma dedent_without_margin (text : str) (c : char) (l : str) (ls : list str) :
  split_lf text = (c :: l) :: ls -> is_blank c = false ->
  textwrap_dedent text = join [LF] (map blank_out ((c :: l) :: ls)).
Proof.
  intros Hs Hc. unfold textwrap_dedent. rewrite Hs. cbn [map flat_map].
  assert (Hb : blank_out (c :: l) = c :: l).
  { unfold blank_out. cbn [forallb]. now rewrite Hc. }
  assert (Hl : leading_whitespace (c :: l) = [[]]).
  { unfold leading_whitespace. cbn [dropwhile takewhile]. now rewrite Hc. }
  rewrite Hb, Hl. cbn [app fold_left margin_step].
  destruct (fold_margin_prefix (flat_map leading_whitespace (map blank_out ls)) [])
    as (m' & Hm & Hp & _).
  rewrite Hm. destruct m' as [|x m']; [reflexivity|discriminate].
Qed.

Lemma splitlines_keepends_cons (c : char) (t : str) :
  is_linebreak c = false ->
  splitlines_keepends (c :: t) =
  match splitlines_keepends t with
  | [] => [[c]]
  | l :: ls => (c :: l) :: ls
  end.
Proof. intros H. cbn [splitlines_keepends]. now rewrite H. Qed.

Lemma splitlines_keepends_prefix (p y : str) :
  Forall (fun c => is_linebreak c = false) p -> p <> [] ->
  exists l ls, splitlines_keepends (p ++ y) = (p ++ l) :: ls.
Proof.
  induction 1 as [|c p Hc Hp IH]; intros Hne; [congruence|].
  cbn [app]. rewrite splitlines_keepends_cons by assumption.
  destruct p as [|d p].
  - cbn [app]. destruct (splitlines_keepends y) as [|l ls];
      [exists [], []|exists l, ls]; reflexivity.
  - destruct (IH ltac:(discriminate)) as (l & ls & Hl). rewrite Hl.
    exists l, ls. reflexivity.
Qed.

Lemma textwrap_indent_prefix (c : char) (p y prefix : str) :
  is_space c = false ->
  Forall (fun c => is_linebreak c = false) (c :: p) ->
  exists rest, textwrap_indent ((c :: p) ++ y) prefix = prefix ++ (c :: p) ++ rest.
Proof.
  intros Hc Hp.
  destruct (splitlines_keepends_prefix (c :: p) y Hp ltac:(discriminate))
    as (l & ls & Hl).
  unfold textwrap_indent. rewrite Hl. cbn [map concat].
  unfold indent_line at 1. cbn [app].
  rewrite strip_head_not_space by assumption.
  exists (l ++ concat (map (indent_line prefix) ls)).
  rewrite <- app_assoc. f_equal. cbn [app]. f_equal.
  now rewrite <- app_assoc.
Qed.

(** At a positive target indent a match that spans several lines is
    written starting with the indent and three double quotes, whichever its
    own quotes are.  A match between single quotes, with no double quote
    inside, keeps its own quotes: the text between the added double quotes
    is the match with its tabs replaced by [TAB] and its blank lines
    emptied, and the output starts with the indent, three double quotes and
    three single quotes. *)
Theorem format_match_multiline_opens_with_double_quotes (ti : Z) (m : str) :
  0 < count_char LF m -> (0 < ti)%Z ->
  (exists rest, format_match ti m = str_mul TAB ti ++ TRIPLE_DQ ++ rest)
  /\ (forall body,
        m = TRIPLE_SQ ++ body ++ TRIPLE_SQ ->
        Forall (fun c => c <> DQ) body ->
        let inner := TRIPLE_SQ ++ expand_tabs body ++ TRIPLE_SQ in
        format_match ti m =
          textwrap_indent
            (TRIPLE_DQ ++ join [LF] (map blank_out (split_lf inner)) ++ TRIPLE_DQ)
            (str_mul TAB ti)
        /\ exists rest,
             format_match ti m =
             str_mul TAB ti ++ TRIPLE_DQ ++ TRIPLE_SQ ++ rest).
Proof.
  intros Hn Hti.
  assert (Hfm : format_match ti m =
    textwrap_indent
      (TRIPLE_DQ ++ textwrap_dedent (replace TRIPLE_DQ [] (expand_tabs m))
       ++ TRIPLE_DQ) (str_mul TAB ti)).
  { unfold format_match. rewrite replace_tabs.
    rewrite count_expand_tabs by discriminate.
    apply Nat.ltb_lt in Hn. apply Z.ltb_lt in Hti. now rewrite Hn, Hti. }
  split.
  - rewrite Hfm.
    destruct (textwrap_indent_prefix DQ [DQ; DQ]
                (textwrap_dedent (replace TRIPLE_DQ [] (expand_tabs m))
                 ++ TRIPLE_DQ) (str_mul TAB ti) eq_refl
                ltac:(repeat constructor)) as (rest & Hr).
    exists rest. exact Hr.
  - intros body Hm Hbody inner.
    assert (Hexp : expand_tabs m = inner).
    { rewrite Hm, !expand_tabs_app. reflexivity. }
    assert (Hnodq : Forall (fun c => c <> DQ) inner).
    { subst inner. apply Forall_app. split; [repeat constructor; discriminate|].
      apply Forall_app. split; [now apply expand_tabs_without_double_quote|].
      repeat constructor; discriminate. }
    assert (Hrep : replace TRIPLE_DQ [] (expand_tabs m) = inner).
    { rewrite Hexp. now apply replace_without_double_quote. }
    assert (Hsplit : exists l ls, split_lf inner = (SQ :: SQ :: SQ :: l) :: ls).
    { subst inner. cbn [TRIPLE_SQ app].
      destruct (split_lf_cons SQ (expand_tabs body ++ [SQ; SQ; SQ]))
        as (l1 & ls1 & H1 & H1'); [discriminate|].
      destruct (split_lf_cons SQ (SQ :: expand_tabs body ++ [SQ; SQ; SQ]))
        as (l2 & ls2 & H2 & H2'); [discriminate|].
      destruct (split_lf_cons SQ (SQ :: SQ :: expand_tabs body ++ [SQ; SQ; SQ]))
        as (l3 & ls3 & H3 & H3'); [discriminate|].
      rewrite H1' in H2. injection H2 as <- <-.
      rewrite H2' in H3. injection H3 as <- <-.
      exists l1, ls1. exact H3'. }
    destruct Hsplit as (l & ls & Hsplit).
    assert (Hded : textwrap_dedent inner = join [LF] (map blank_out (split_lf inner))).
    { rewrite (dedent_without_margin inner SQ (SQ :: SQ :: l) ls Hsplit eq_refl).
      now rewrite Hsplit. }
    rewrite Hfm, Hrep, Hded. split; [reflexivity|].
    assert (Hj : exists w',
      join [LF] (map blank_out (split_lf inner)) = TRIPLE_SQ ++ w').
    { rewrite Hsplit. cbn [map].
      change (blank_out (SQ :: SQ :: SQ :: l)) with (SQ :: SQ :: SQ :: l).
      destruct (map blank_out ls) as [|l' ls']; cbn [join];
        eexists; reflexivity. }
    destruct Hj as (w' & Hw'). rewrite Hw'.
    destruct (textwrap_indent_prefix DQ ([DQ; DQ] ++ TRIPLE_SQ)
                (w' ++ TRIPLE_DQ) (str_mul TAB ti) eq_refl
                ltac:(repeat constructor)) as (rest & Hr).
    exists rest.
    replace (TRIPLE_DQ ++ (TRIPLE_SQ ++ w') ++ TRIPLE_DQ)
      with ((DQ :: [DQ; DQ] ++ TRIPLE_SQ) ++ w' ++ TRIPLE_DQ)
      by (cbn [app TRIPLE_DQ TRIPLE_SQ]; rewrite <- ?app_assoc; reflexivity).
    rewrite Hr. reflexivity.
Qed.

Lemma format_match_multiline_opens_with_double_quotes_witness :
  0 < count_char LF (py "'''a\n \n  b'''")
  /\ format_match 1 (py "'''a\n \n  b'''")
     = py "    \q\q\q'''a\n\n      b'''\q\q\q".
Proof.
  assert (Hn : 0 < count_char LF (py "'''a\n \n  b'''")) by (vm_compute; lia).
  split; [exact Hn|].
  destruct (format_match_multiline_opens_with_double_quotes 1
              (py "'''a\n \n  b'''") Hn ltac:(lia)) as (_ & H).
  destruct (H (py "a\n \n  b") eq_refl ltac:(repeat constructor; discriminate))
    as (Heq & _).
  rewrite Heq. reflexivity.
Defined.

(** * Tabs and literals in [string_format] *)

(** C10, as the code has it.  The output of [string_format] is made of the
    texts between the matches of the triple-quote matcher, each indented by
    [textwrap.indent], which keeps every line as it is or puts the indent
    before it, and of the texts written for the matches.  The text written
    for a match is made from the match with every tab replaced by [TAB] and
    has no tab: it is the indent followed by the match so expanded when the
    match has no line feed or the target indent is not positive, and the
    re-indented dedent of the expansion otherwise.  So the tabs of the
    output are those outside the matches.  A literal that follows text
    without quotes is a match. *)
Theorem C10_tabs_in_literals (string : str) (ti : Z) :
  string_format string ti = render string ti (finditer string) 0
  /\ count_char HT (string_format string ti)
     = count_char HT (outside_matches string)
  /\ (forall x,
        concat (splitlines_keepends x) = x
        /\ exists lines',
             textwrap_indent x (str_mul TAB ti) = concat lines'
             /\ Forall2 (kept_line (str_mul TAB ti)) (splitlines_keepends x) lines')
  /\ (forall a b,
        In (a, b) (finditer string) ->
        let m := slice string a b in
        (exists pre post,
           string_format string ti = pre ++ format_match ti m ++ post)
        /\ count_char HT (format_match ti m) = 0
        /\ (count_char LF m = 0 \/ (ti <= 0)%Z ->
            format_match ti m = str_mul TAB ti ++ expand_tabs m)
        /\ (0 < count_char LF m -> (0 < ti)%Z ->
            format_match ti m =
            textwrap_indent
              (TRIPLE_DQ ++ textwrap_dedent (replace TRIPLE_DQ [] (expand_tabs m))
               ++ TRIPLE_DQ)
              (str_mul TAB ti)))
  /\ (forall q pre body post,
        string = pre ++ [q; q; q] ++ body ++ [q; q; q] ++ post ->
        Forall not_quote pre ->
        q = DQ \/ q = SQ ->
        find_close q (body ++ [q; q; q]) = Some (length body) ->
        let m_end := length pre + 6 + length body in
        In (length pre, m_end) (finditer string)
        /\ slice string (length pre) m_end = [q; q; q] ++ body ++ [q; q; q]
        /\ string_format string ti =
           textwrap_indent pre (str_mul TAB ti)
           ++ format_match ti ([q; q; q] ++ body ++ [q; q; q])
           ++ render string ti (finditer_from 0 m_end post) m_end).
Proof.
  split; [apply string_format_render|].
  split; [rewrite string_format_render; apply count_render_tab|].
  split; [intros x; apply textwrap_indent_lines|].
  split.
  - intros a b Hin m.
    assert (Hlf : count_char LF (expand_tabs m) = count_char LF m)
      by (apply count_expand_tabs; discriminate).
    split; [|split; [|split]].
    + rewrite string_format_render. now apply render_match.
    + apply count_format_match_tab.
    + intros Hcase. unfold format_match. rewrite replace_tabs, Hlf.
      destruct Hcase as [H0|Hti].
      * rewrite H0. reflexivity.
      * apply Z.ltb_ge in Hti. rewrite Hti, andb_false_r. reflexivity.
    + intros Hn Hti. unfold format_match. rewrite replace_tabs, Hlf.
      apply Nat.ltb_lt in Hn. apply Z.ltb_lt in Hti.
      rewrite Hn, Hti. reflexivity.
  - intros q pre body post -> Hpre Hq Hf.
    exact (string_format_literal q pre body post ti Hpre Hq Hf).
Qed.

(** C10 as stated fails: at a positive target indent the tabs that make
    the margin of a multi-line literal are not replaced by [TAB] in the
    output, they are gone, the literal being written as it is without
    them. *)
Lemma C10_tab_in_margin_removed :
  finditer (py "\q\q\q\n\ta\n\tb\q\q\q") = [(0, 12)]
  /\ string_format (py "\q\q\q\n\ta\n\tb\q\q\q") 2
     = py "        \q\q\q\n        a\n        b\q\q\q"
  /\ string_format (py "\q\q\q\n\ta\n\tb\q\q\q") 2
     = string_format (py "\q\q\q\na\nb\q\q\q") 2
  /\ string_format (py "\q\q\q\n\ta\n\tb\q\q\q") 2
     <> textwrap_indent (expand_tabs (py "\q\q\q\n\ta\n\tb\q\q\q")) (str_mul TAB 2).
Proof.
  split; [reflexivity|]. split; [reflexivity|]. split; [reflexivity|].
  vm_compute. discriminate.
Qed.

(** C3, as the code has it.  The text written for a match of the
    triple-quote matcher stands in the output.  When the match has no line
    feed, or the target indent is not positive, it is the indent followed
    by the match with its tabs replaced by [TAB], so a match without tabs
    is only prefixed.  When the match is between double quotes, has a line
    feed and the target indent is positive, the text between the quotes,
    tabs replaced, is dedented (one margin is taken off every line that is
    not blank, the blank lines become empty), the quotes are put back, and
    [textwrap.indent] keeps every line of the whole as it is or puts the
    indent before it. *)
Theorem C3_literal_handling (string : str) (ti : Z) (a b : nat) :
  In (a, b) (finditer string) ->
  let m := slice string a b in
  let used_indent := str_mul TAB ti in
  (exists pre post, string_format string ti = pre ++ format_match ti m ++ post)
  /\ (count_char LF m = 0 \/ (ti <= 0)%Z ->
      format_match ti m = used_indent ++ expand_tabs m
      /\ (count_char HT m = 0 -> format_match ti m = used_indent ++ m))
  /\ (startswith TRIPLE_DQ m = true -> 0 < count_char LF m -> (0 < ti)%Z ->
      exists body margin lines',
        m = TRIPLE_DQ ++ body ++ TRIPLE_DQ
        /\ format_match ti m =
           textwrap_indent
             (TRIPLE_DQ ++ textwrap_dedent (expand_tabs body) ++ TRIPLE_DQ)
             used_indent
        /\ format_match ti m = concat lines'
        /\ Forall2 (kept_line used_indent)
             (splitlines_keepends
                (TRIPLE_DQ ++ textwrap_dedent (expand_tabs body) ++ TRIPLE_DQ))
             lines'
        /\ Forall2 (dedented_line margin) (split_lf (expand_tabs body))
             (split_lf (textwrap_dedent (expand_tabs body)))).
Proof.
  intros Hin m used_indent.
  split; [rewrite string_format_render; now apply render_match|].
  split.
  - intros Hcase.
    assert (Hlf : count_char LF (expand_tabs m) = count_char LF m)
      by (apply count_expand_tabs; discriminate).
    assert (Hfm : format_match ti m = used_indent ++ expand_tabs m).
    { unfold format_match. rewrite replace_tabs, Hlf.
      destruct Hcase as [H0|Hti].
      - rewrite H0. reflexivity.
      - apply Z.ltb_ge in Hti. rewrite Hti, andb_false_r. reflexivity. }
    split; [exact Hfm|]. intros Hht. rewrite Hfm.
    rewrite expand_tabs_no_tabs; [reflexivity|].
    now apply count_char_zero_iff.
  - intros Hs Hn Hti.
    destruct (finditer_slice string a b Hin)
      as (q & body & rest & Hq & Hm & _ & Hf).
    fold m in Hm.
    assert (q = DQ) as ->.
    { destruct Hq as [->| ->]; [reflexivity|]. rewrite Hm in Hs. discriminate. }
    fold TRIPLE_DQ in Hm, Hf.
    destruct (textwrap_dedent_lines (expand_tabs body)) as (margin & Hd).
    assert (Hb : 0 < count_char LF body).
    { rewrite Hm, !count_char_app in Hn. unfold count_char in Hn at 1 3.
      simpl in Hn. lia. }
    pose proof (format_match_double_quoted ti body rest Hf Hb Hti) as Hfm.
    rewrite <- Hm in Hfm.
    destruct (textwrap_indent_lines
                (TRIPLE_DQ ++ textwrap_dedent (expand_tabs body) ++ TRIPLE_DQ)
                used_indent) as (_ & lines' & Hc & Hk).
    exists body, margin, lines'.
    split; [exact Hm|]. split; [exact Hfm|].
    split; [rewrite Hfm; exact Hc|]. split; [exact Hk|exact Hd].
Qed.

Lemma C3_literal_handling_witness :
  In (4, 25) (finditer (py "x = \q\q\q\n\t  a\n\n\t    b\n\t\q\q\q\n"))
  /\ string_format (py "x = \q\q\q\n\t  a\n\n\t    b\n\t\q\q\q\n") 1
     = py "    x =     \q\q\q\n    a\n\n      b\n    \q\q\q\n".
Proof.
  assert (Hin : In (4, 25) (finditer (py "x = \q\q\q\n\t  a\n\n\t    b\n\t\q\q\q\n")))
    by (left; reflexivity).
  split; [exact Hin|].
  destruct (C3_literal_handling
              (py "x = \q\q\q\n\t  a\n\n\t    b\n\t\q\q\q\n") 1 4 25 Hin)
    as (_ & _ & _).
  reflexivity.
Defined.

(** C3 as stated fails: the content of a single-line literal with a tab is
    changed, the tab becoming four spaces; and in a multi-line literal a
    line of spaces only loses its spaces. *)
Lemma C3_literal_content_changed :
  string_format (py "\q\q\qa\tb\q\q\q") 1 = py "    \q\q\qa    b\q\q\q"
  /\ string_format (py "\q\q\qa\tb\q\q\q") 1
     <> str_mul TAB 1 ++ py "\q\q\qa\tb\q\q\q"
  /\ string_format (py "\q\q\q\n  a\n \n  b\q\q\q") 1
     = py "    \q\q\q\n    a\n\n    b\q\q\q".
Proof.
  split; [reflexivity|]. split; [vm_compute; discriminate|reflexivity].
Qed.
